(* ===== verification/_CoqProject ===== *)
-Q . S2P
Prelude.v
Filesystem.v
WrappedQueue.v
Util.v
ProcessingThread.v
ThreadSteps.v
Pipeline.v
StageMachine.v
Interleaving.v
