(* ===== verification/Prelude.v ===== *)
(** * A verification development of transponster's processing stage

    The repository [absanger/transponster] is a three-stage batch pipeline
    (download -> process -> upload).  Its source under [src/] is one file,
    [src/transponster/processing_thread.py]: the class [ProcessingThread],
    whose [run] method drains the [downloaded] queue, runs a user script on
    each batch's working directory, reports failures on [error_queue],
    deletes consumed input with [shutil.rmtree], and forwards each batch (or
    a [None] skip marker) to the [to_upload] queue, closing it at the end.
    Its collaborators live in [transponster.util], which is not under
    [src/]; they are modelled from the spec (marked spec-modelled in the
    manifest), as are the download and upload threads, of which only the
    queue contract enters the model.

    ** Files, in dependency order

    - [Prelude] (this file): the Python runtime the model needs: exception
      values [PyExn] with their [__repr__] and their [Exception] /
      [BaseException] classification; the state-and-exception monad [PyM]
      (a statement returns, raises with its side effects kept, or blocks)
      with its notation in [py_scope], [py_try] for [try/except] and
      [py_zoom] for a method call on an attribute; simulation of one
      program by another through a state map ([py_sim]) and its
      compositional rules; the hint databases [transponster], [py_simpl].
    - [Filesystem]: paths as lists of components, the file system as a
      stdpp [gmap] from paths to [Dir]/[File]; [Path(s)] ([path_of_str],
      splitting a path string at [/]) and [str(path)] ([path_str]) with
      their round trip; [Path.resolve] and [shutil.rmtree] (deletes the
      tree; raises [FileNotFoundError] or [NotADirectoryError]).
    - [WrappedQueue]: the closable queue interface as a type class
      ([ClosableQueue]: [put], [get], [empty], [close] and the abstract view
      [q_items]/[q_closed]) with its contract [ClosableQueueLaws]; the
      Python methods as statements ([queue_get] raises [ClosedException] on
      a closed drained queue and blocks on an open empty one); the view
      equivalence [≡] with its [Proper] instances; the list implementation
      [WQ] (spec-modelled [WrappedQueue]) and a second, two-list
      implementation [BQ], both lawful; FIFO and [close] lemmas; the
      abstraction [wq_abs] into [WQ] commuting with every method.
    - [Util]: [JobBatch], [ErrorType], [FailedJobBatch], and the [Script]
      capability (a statement on the file system) with the laws
      [ScriptConfined] and [ScriptTerminates].
    - [ProcessingThread]: the thread object as a record of its attributes
      ([downloaded], [to_upload], [error_queue], [done], with the file
      system and the logger's entries); [__init__] ([pt_init]); [run]
      translated statement by statement: [loop_test] (line 41), [get_next]
      (42-47), [forward_skip] (49-52), [process_batch] (53-76) with
      [report_failure] (60-67) and [finish_batch] (69-76), [loop_body]
      (42-76), [finish_run] (78-79); the program counter [PC] and the
      deterministic step [pt_step]; [run_thread] iterates it with fuel.
      The thread is generic in the queue implementation; [sim_run_thread]
      proves it is simulated, through [pt_abs], by the thread on [WQ].
      The same file holds the reference specification: [item_spec] (what
      one input item becomes, spec section 4.2), [stage_spec] (the whole
      stage on a closed queue), and [item_log]/[stage_log] (the lines the
      logger receives), pure functions of items and file system; the
      theorems C1-C10 about [run] against it, and their witnesses on
      scenario E of the spec.
    - [ThreadSteps]: the shapes of one step of [run] ([step_case], with
      its inversion lemma [pt_step_cases]); what a step appends to the
      error queue and to the log; the measure [steps_left] (two steps per
      queued item, three to leave the loop); progress (with a script that
      never hangs, only the [get()] on an empty open queue waits); the
      theorems C16-C18.
    - [Pipeline]: the pipeline store [Sys] (the thread plus ghost histories
      of the other threads) and the interleaving [sys_step]: the download
      thread puts (only before closing) and closes, other stages report
      failures, the reporting loop and the upload thread take from their
      queues, the processing thread steps; the invariant [sys_inv] of every
      reachable state (induction on [rtc], through [rtc_invariant]), the
      invariant [failures_logged], and the theorems C11-C15, C19, C20.
    - [StageMachine]: the spec's two-mode stage (RUNNING/DONE, section
      4.2) as a step relation on its own state (input, output, failures,
      files), the reading [abs_sys] of a pipeline state as a machine
      state, and the refinement theorem C21.
    - [Interleaving]: the invariant [spec_inv] (the pipeline state is
      [stage_spec] on the items [run] has taken, with [pc_status] reading
      a crash as [Died]) preserved by every step of every thread, and
      the theorems C22, C23.

    ** What the theorems show

    - C1, C2 (refinement, equivalence): [run] from [__init__] on a closed
      input queue is [stage_spec]; one loop pass is [item_spec] on every
      branch.
    - C3-C5: a skip marker is forwarded without consulting the script; an
      [Exception] from the script gives exactly one [PROCESSING_FAILED]
      record with the exception's [repr], a skip marker, and an untouched
      input folder; success deletes exactly the input tree and forwards
      the batch.
    - C6, C7 (findings): a failing [rmtree] or a [BaseException] from the
      script escapes [run]; [to_upload] is then never closed (C15), so the
      upload thread blocks forever, contrary to the spec's shutdown rule.
    - C8-C10: termination within [2n+3] steps for a script that does not
      hang; a closed drained queue ends the loop by [break] and closes
      [to_upload]; the body blocks exactly on an empty open input queue.
    - C11-C15 (invariants of the interleaved pipeline): outputs answer
      inputs position by position; failure records match skip markers;
      the [while] test is always true (the loop only exits by [break]:
      a finding against the spec's account of the two-part condition);
      at exit everything put was answered; [to_upload] is closed exactly
      when [run] returned.
    - C16 (bounds): the [2n+3] of C1 is exact: [run] never returns in
      fewer steps.  C17, C18 (functional, type): on every run, for any
      number of steps and any input queue, the records on [error_queue]
      are exactly those passed to [logger.error], in order, and each is a
      [PROCESSING_FAILED] record carrying the [repr] of an [Exception].
    - C19: in every interleaving the processing failures on the error
      channel are the logged ones.  C20 (liveness): once [downloaded] is
      closed, the processing thread stops within [steps_left] steps of its
      own, whatever the other threads do.
    - C21 (refinement): every reachable pipeline
      state where the thread has not crashed is a reachable state of the
      spec's machine, each pipeline step a machine step or invisible.
    - C22, C23 (interleaving independence): in every reachable state,
      whatever the order of the other threads' steps, the answers, the
      processing failures and the files are [stage_spec] on the items
      taken, and a crash is its [Died]; at exit the result is
      [stage_spec] of everything put.

    ** Fuel

    [run_thread] takes one unit of fuel per thread step: two per item
    (test, body) and three at the end (test, body that sees
    [ClosedException], close), so [2 * n + 3] suffices for [n] queued
    items (C1, C8); any extra fuel changes nothing (a stopped thread
    stays where it is), and C16 shows that fewer never reaches the
    return.  The pipeline's liveness (C20) counts
    the processing thread's own steps with the same measure
    ([steps_left]).

    ** Modelling choices

    A [get()] that would wait is a step that is not enabled ([Blocked]
    outcomes make [pt_step] return [None]); when the body is retried, the
    one log line before the [get()] is written once, as in the program.
    A pass that blocks leaves the state as it was before the pass: the
    line-42 log entry of a thread waiting in [get()] is recorded only
    when the pass completes, and for a script that hangs the dequeued
    item, the log lines 53 and 57 and the script's partial effects on
    the files are not recorded ([item_spec]'s [Hangs], [stage_log]).
    Each pass of the loop body is one atomic step of the pipeline: the
    other threads only touch the queues, and the thread's own puts become
    visible at the end of its pass.

    ** Not modelled

    The download and upload threads' own code (only their queue contract),
    the script's subprocess mechanics (abstracted by [Script]), structlog
    itself and its formatting (each [logger] call is an entry appended to
    the thread's log; [get_error_message] is not modelled), relative
    paths and the current directory ([TemporaryDirectory] names are
    absolute, so [resolve] needs no current directory), symbolic links and
    permissions in the file system, and OS scheduling beyond the
    interleaving of [Pipeline]. *)

From stdpp Require Import base list gmap strings.

Declare Scope py_scope.
Delimit Scope py_scope with py.

Create HintDb transponster discriminated.
Create Rewrite HintDb py_simpl.

(** ** Python exceptions *)

(** An exception value: its class name, the [repr] of its arguments, and
    whether its class derives from [Exception] (all but [BaseException]'s
    direct subclasses such as [KeyboardInterrupt] and [SystemExit]). *)
Record PyExn := mkPyExn {
  exn_class : string;
  exn_args : list string;
  exn_is_Exception : bool;
}.

#[export] Instance PyExn_eq_dec : EqDecision PyExn.
Proof. solve_decision. Defined.

(** [BaseException.__repr__]: [Cls(arg1, arg2)] with each argument already
    in its [repr] form. *)
Definition py_repr (e : PyExn) : string :=
  exn_class e +:+ "(" +:+ String.concat ", " (exn_args e) +:+ ")".

(** [except Exception]: the handler catches exactly the [Exception]
    subclasses. *)
Definition catches_Exception (e : PyExn) : bool := exn_is_Exception e.

(** ** The state-and-exception monad *)

(** A Python statement run on state [S]: it returns, raises (side effects
    performed before the raise are kept, as in Python), or blocks (a
    blocking [Queue.get] with nothing to take). *)
Inductive outcome (S A : Type) : Type :=
| Normal (a : A) (s : S)
| Raised (e : PyExn) (s : S)
| Blocked (s : S).
Arguments Normal {S A} a s.
Arguments Raised {S A} e s.
Arguments Blocked {S A} s.

Definition PyM (S A : Type) : Type := S -> outcome S A.

Definition py_ret {S A} (a : A) : PyM S A := fun s => Normal a s.

Definition py_bind {S A B} (m : PyM S A) (k : A -> PyM S B) : PyM S B :=
  fun s =>
    match m s with
    | Normal a s' => k a s'
    | Raised e s' => Raised e s'
    | Blocked s' => Blocked s'
    end.

Definition py_raise {S A} (e : PyExn) : PyM S A := fun s => Raised e s.

Definition py_modify {S} (f : S -> S) : PyM S unit := fun s => Normal tt (f s).

Definition py_gets {S A} (f : S -> A) : PyM S A := fun s => Normal (f s) s.

(** [try: m except <catches> as e: h e]. *)
Definition py_try {S A} (m : PyM S A) (catches : PyExn -> bool)
    (h : PyExn -> PyM S A) : PyM S A :=
  fun s =>
    match m s with
    | Raised e s' => if catches e then h e s' else Raised e s'
    | o => o
    end.

(** Run a computation on one field of a larger state: how a method call
    on an attribute ([self.to_upload.put(x)]) acts on the object. *)
Definition py_zoom {S T A} (get : S -> T) (set : T -> S -> S) (m : PyM T A) :
    PyM S A :=
  fun s =>
    match m (get s) with
    | Normal a t => Normal a (set t s)
    | Raised e t => Raised e (set t s)
    | Blocked t => Blocked (set t s)
    end.

Notation "x <- m ;; k" := (py_bind m (fun x => k))
  (at level 100, m at next level, right associativity) : py_scope.
Notation "m ;; k" := (py_bind m (fun _ => k))
  (at level 100, right associativity) : py_scope.

(** ** Simulation of one program by another through a state map *)

Definition outcome_map {S T A} (f : S -> T) (o : outcome S A) : outcome T A :=
  match o with
  | Normal a s => Normal a (f s)
  | Raised e s => Raised e (f s)
  | Blocked s => Blocked (f s)
  end.

(** The state an outcome leaves, whichever way the statement ended. *)
Definition outcome_state {S A} (o : outcome S A) : S :=
  match o with Normal _ s | Raised _ s | Blocked s => s end.

(** [m1], run on [S], is simulated by [m2], run on [T], through [f]:
    mapping the outcome of [m1] gives the outcome of [m2] on the image. *)
Definition py_sim {S T A} (f : S -> T) (m1 : PyM S A) (m2 : PyM T A) : Prop :=
  forall s, outcome_map f (m1 s) = m2 (f s).

(** ** Monad laws used to normalise programs *)

Lemma py_bind_ret {S A B} (a : A) (k : A -> PyM S B) s :
  py_bind (py_ret a) k s = k a s.
Proof. reflexivity. Qed.

Lemma py_bind_assoc {S A B C} (m : PyM S A) (k : A -> PyM S B)
    (k' : B -> PyM S C) s :
  py_bind (py_bind m k) k' s = py_bind m (fun a => py_bind (k a) k') s.
Proof. unfold py_bind. by destruct (m s). Qed.

Lemma py_try_Normal {S A} (m : PyM S A) c h s a s' :
  m s = Normal a s' -> py_try m c h s = Normal a s'.
Proof. unfold py_try. by intros ->. Qed.

Lemma py_try_caught {S A} (m : PyM S A) c h s e s' :
  m s = Raised e s' -> c e = true -> py_try m c h s = h e s'.
Proof. unfold py_try. intros -> ->. reflexivity. Qed.

Lemma py_try_uncaught {S A} (m : PyM S A) c h s e s' :
  m s = Raised e s' -> c e = false -> py_try m c h s = Raised e s'.
Proof. unfold py_try. intros -> ->. reflexivity. Qed.

#[export] Hint Rewrite @py_bind_ret @py_bind_assoc : py_simpl.

(** ** Shared list lemmas *)

Lemma Forall2_snoc {A B} (P : A -> B -> Prop) l1 l2 x y :
  Forall2 P l1 l2 -> P x y -> Forall2 P (l1 ++ [x]) (l2 ++ [y]).
Proof. intros. apply Forall2_app; [done | by constructor]. Qed.

#[export] Hint Resolve Forall2_snoc : transponster.

(** Cut a list after the first [n] elements: the prefix a consumer has
    taken so far. *)
Lemma app_prefix_cons {A} (c l : list A) x :
  c ++ x :: l = (c ++ [x]) ++ l.
Proof. by rewrite <- app_assoc. Qed.

(** Filtering a list whose elements all pass changes nothing. *)
Lemma filter_Forall_id {A} (P : A -> Prop) `{!forall x, Decision (P x)} (l : list A) :
  Forall P l -> filter P l = l.
Proof. induction 1; [done|]. by rewrite filter_cons_True, IHForall. Qed.

(** A property every step preserves holds along every run. *)
Lemma rtc_invariant {A} (R : relation A) (P : A -> Prop) :
  (forall x y, P x -> R x y -> P y) -> forall x y, rtc R x y -> P x -> P y.
Proof. intros Hstep x y Hr. induction Hr as [|x y z Hxy _ IH]; [done|]. eauto. Qed.

(** ** Tactics *)

(** Unfold the monad and normalise a program run to its outcome. *)
Ltac py_unfold :=
  unfold py_bind, py_ret, py_modify, py_gets, py_raise, py_try in *.

(** Case on every [match] and [if] of the goal, keeping the equations. *)
Ltac case_goal :=
  repeat match goal with
  | |- context [match ?x with _ => _ end] => let E := fresh "E" in destruct x eqn:E
  end.

Section Simulation.
Context {S T : Type} (f : S -> T).

Lemma py_sim_ret {A} (a : A) : py_sim f (py_ret a) (py_ret a).
Proof. done. Qed.

Lemma py_sim_raise {A} e : py_sim f (@py_raise S A e) (py_raise e).
Proof. done. Qed.

Lemma py_sim_bind {A B} (m1 : PyM S A) m2 (k1 : A -> PyM S B) k2 :
  py_sim f m1 m2 -> (forall a, py_sim f (k1 a) (k2 a)) ->
  py_sim f (py_bind m1 k1) (py_bind m2 k2).
Proof. intros Hm Hk s. unfold py_bind. rewrite <- Hm. destruct (m1 s); simpl; [apply Hk|done|done]. Qed.

Lemma py_sim_try {A} (m1 : PyM S A) m2 c h1 h2 :
  py_sim f m1 m2 -> (forall e, py_sim f (h1 e) (h2 e)) ->
  py_sim f (py_try m1 c h1) (py_try m2 c h2).
Proof.
  intros Hm Hh s. unfold py_try. rewrite <- Hm.
  destruct (m1 s); simpl; [done| |done]. destruct (c e); [apply Hh|done].
Qed.

Lemma py_sim_modify g1 g2 :
  (forall s, f (g1 s) = g2 (f s)) -> py_sim f (py_modify g1) (py_modify g2).
Proof. intros H s. unfold py_modify. simpl. by rewrite H. Qed.

Lemma py_sim_gets {A} (r1 : S -> A) r2 :
  (forall s, r1 s = r2 (f s)) -> py_sim f (py_gets r1) (py_gets r2).
Proof. intros H s. unfold py_gets. simpl. by rewrite H. Qed.

(** A method call on a field is simulated when the field's projection
    and update commute with the state maps. *)
Lemma py_sim_zoom {U V A} (g : U -> V) get1 set1 get2 set2
    (m1 : PyM U A) (m2 : PyM V A) :
  (forall s, g (get1 s) = get2 (f s)) ->
  (forall u s, f (set1 u s) = set2 (g u) (f s)) ->
  py_sim g m1 m2 ->
  py_sim f (py_zoom get1 set1 m1) (py_zoom get2 set2 m2).
Proof.
  intros Hget Hset Hm s. unfold py_zoom. rewrite <- Hget, <- Hm.
  destruct (m1 (get1 s)); simpl; by rewrite Hset.
Qed.
End Simulation.

Lemma py_sim_id {S A} (m : PyM S A) : py_sim id m m.
Proof. intros s. unfold id. destruct (m s); reflexivity. Qed.

#[export] Hint Resolve py_sim_ret py_sim_raise py_sim_id : transponster.
