(* ===== verification/Filesystem.v ===== *)
(** * The file system the processing thread touches

    Paths are lists of components; the file system is a stdpp [gmap] from
    paths to node kinds.  [path_of_str] is [pathlib.Path(s)] (line 54)
    and [path_str] is [str(path)] (lines 57, 70); parsing what is
    printed gives the path back.  [resolve] is [pathlib.Path.resolve] on an
    absolute path without symbolic links; [rmtree] is [shutil.rmtree]
    (line 73 of [processing_thread.py]), which deletes a directory with
    everything below it and raises when the path is missing or is not a
    directory.  Both are library functions the source calls: they are
    modelled to the extent the theorems need them. *)

From stdpp Require Import base list gmap strings.
From Stdlib Require Import Ascii.
From S2P Require Import Prelude.

Definition Path := list string.

Inductive Node := Dir | File.

#[export] Instance Node_eq_dec : EqDecision Node.
Proof. solve_decision. Defined.

(** The file system: which paths exist, and what they are. *)
Abbreviation FS := (gmap Path Node).

(** [str(path)] for an absolute path. *)
Definition path_str (p : Path) : string := "/" +:+ String.concat "/" p.

(** ** [pathlib.Path(s)]: parsing a path string *)

Definition slash : Ascii.ascii := "/"%char.

(** The pieces of [s] between slashes, [s.split("/")]. *)
Fixpoint split_slash (s : string) : list string :=
  match s with
  | EmptyString => [""]
  | String c s' =>
      let ws := split_slash s' in
      if Ascii.eqb c slash then "" :: ws
      else match ws with
           | w :: ws' => String c w :: ws'
           | [] => [String c ""]
           end
  end.

Fixpoint has_slash (s : string) : bool :=
  match s with
  | EmptyString => false
  | String c s' => Ascii.eqb c slash || has_slash s'
  end.

(** A component as [Path] keeps it: not empty, not [.], without [/]. *)
Definition component_ok (c : string) : bool :=
  bool_decide (c <> "") && bool_decide (c <> ".") && negb (has_slash c).

(** [Path(s)] of a POSIX path string: split at the slashes, dropping
    empty and [.] components ([..] is kept; [resolve] handles it).  The
    strings the thread parses are [TemporaryDirectory] names, which are
    absolute, so the leading [/] carries no information here. *)
Definition path_of_str (s : string) : Path :=
  filter (fun c => c <> "" /\ c <> ".") (split_slash s).

(** ** [Path.resolve] *)

(** One component of the normalisation, on the reversed prefix already
    resolved: ["."] and [""] are dropped, [".."] goes up one level. *)
Definition resolve_step (acc : list string) (c : string) : list string :=
  if decide (c = "" \/ c = ".") then acc
  else if decide (c = "..") then tail acc
  else c :: acc.

Definition resolve (p : Path) : Path := reverse (foldl resolve_step [] p).

(** ** [shutil.rmtree] *)

Definition FileNotFoundError (p : Path) : PyExn :=
  mkPyExn "FileNotFoundError"
    ["2"; "'No such file or directory'"; "'" +:+ path_str p +:+ "'"] true.

Definition NotADirectoryError (p : Path) : PyExn :=
  mkPyExn "NotADirectoryError"
    ["20"; "'Not a directory'"; "'" +:+ path_str p +:+ "'"] true.

(** [q] lies in the tree rooted at [p]. *)
Definition under (p q : Path) : Prop := p `prefix_of` q.

#[export] Instance under_dec p q : Decision (under p q).
Proof. unfold under. apply _. Defined.

(** Everything outside the tree rooted at [p]. *)
Definition remove_tree (p : Path) (fs : FS) : FS :=
  filter (fun kv : Path * Node => ~ under p kv.1) fs.

Definition rmtree (p : Path) : PyM FS unit :=
  fun fs =>
    match fs !! p with
    | None => Raised (FileNotFoundError p) fs
    | Some File => Raised (NotADirectoryError p) fs
    | Some Dir => Normal tt (remove_tree p fs)
    end.

(** ** Lemmas *)

Lemma lookup_remove_tree p q fs :
  remove_tree p fs !! q = if decide (under p q) then None else fs !! q.
Proof.
  unfold remove_tree. destruct (fs !! q) as [n|] eqn:E; case_decide.
  - apply map_lookup_filter_None_2. right. intros ? ? ?. simpl. naive_solver.
  - by apply map_lookup_filter_Some_2.
  - apply map_lookup_filter_None_2. by left.
  - apply map_lookup_filter_None_2. by left.
Qed.

Lemma under_refl p : under p p.
Proof. unfold under. done. Qed.

Lemma lookup_remove_tree_outside p q fs :
  ~ under p q -> remove_tree p fs !! q = fs !! q.
Proof. intros H. rewrite lookup_remove_tree. by case_decide. Qed.

Lemma lookup_remove_tree_inside p q fs :
  under p q -> remove_tree p fs !! q = None.
Proof. intros H. rewrite lookup_remove_tree. by case_decide. Qed.

(** *** Parsing and printing paths *)

Lemma split_slash_no_slash w : has_slash w = false -> split_slash w = [w].
Proof.
  induction w as [|c w IH]; [done|]. simpl. intros [Hc Hw]%orb_false_iff.
  by rewrite IH, Hc.
Qed.

Lemma split_slash_app w r :
  has_slash w = false -> split_slash (w +:+ String slash r) = w :: split_slash r.
Proof.
  induction w as [|c w IH]; [done|]. simpl. intros [Hc Hw]%orb_false_iff.
  by rewrite IH, Hc.
Qed.

Lemma split_slash_concat ws :
  ws <> [] -> Forall (fun w => has_slash w = false) ws ->
  split_slash (String.concat "/" ws) = ws.
Proof.
  induction ws as [|w [|w' ws] IH]; intros Hne Hf; [done| |].
  - inversion Hf. by apply split_slash_no_slash.
  - inversion Hf as [|? ? Hw Hf']. change (String.concat "/" (w :: w' :: ws))
      with (w +:+ String slash (String.concat "/" (w' :: ws))).
    rewrite split_slash_app, IH; done.
Qed.

Lemma component_ok_spec c :
  component_ok c = true <-> c <> "" /\ c <> "." /\ has_slash c = false.
Proof.
  unfold component_ok. rewrite !andb_true_iff, !bool_decide_eq_true, negb_true_iff.
  naive_solver.
Qed.

(** Printing a well-formed path and parsing it back gives the path. *)
Lemma path_of_str_path_str p :
  Forall (fun c => component_ok c = true) p -> path_of_str (path_str p) = p.
Proof.
  intros Hp. unfold path_of_str, path_str.
  change ("/" +:+ String.concat "/" p) with (String slash (String.concat "/" p)).
  cbn [split_slash]. replace (Ascii.eqb slash slash) with true by done.
  destruct p as [|c p]; [done|].
  rewrite split_slash_concat; [|done|].
  - rewrite filter_cons_False by naive_solver. apply filter_Forall_id.
    eapply Forall_impl; [exact Hp|]. intros x Hx%component_ok_spec. naive_solver.
  - eapply Forall_impl; [exact Hp|]. intros x Hx%component_ok_spec. naive_solver.
Qed.

Lemma split_slash_components s : Forall (fun w => has_slash w = false) (split_slash s).
Proof.
  induction s as [|c s IH]; simpl; [by repeat constructor|].
  destruct (Ascii.eqb c slash) eqn:Hc; [by constructor|].
  destruct (split_slash s) as [|w ws]; [by repeat constructor; simpl; rewrite Hc|].
  inversion IH as [|? ? Hw Hws]. constructor; [|done]. simpl. by rewrite Hc, Hw.
Qed.

(** The components [Path(s)] keeps are well formed. *)
Lemma path_of_str_ok s : Forall (fun c => component_ok c = true) (path_of_str s).
Proof.
  unfold path_of_str. apply Forall_forall. intros w [[? ?] Hin]%list_elem_of_filter.
  apply component_ok_spec. split_and!; [done|done|].
  by apply (proj1 (Forall_forall _ _) (split_slash_components s)).
Qed.

Lemma resolve_step_ok acc c :
  Forall (fun c => component_ok c = true) acc -> has_slash c = false ->
  Forall (fun c => component_ok c = true) (resolve_step acc c).
Proof.
  intros Hacc Hc. unfold resolve_step.
  case_decide as H1; [done|]. case_decide as H2.
  - destruct acc; [done|]. by inversion Hacc.
  - constructor; [|done]. apply component_ok_spec. naive_solver.
Qed.

(** [resolve] keeps only well-formed components. *)
Lemma resolve_ok p :
  Forall (fun c => has_slash c = false) p -> Forall (fun c => component_ok c = true) (resolve p).
Proof.
  unfold resolve. intros Hp. apply Forall_reverse.
  cut (forall acc, Forall (fun c => component_ok c = true) acc ->
         Forall (fun c => component_ok c = true) (foldl resolve_step acc p)); [by auto|].
  induction Hp as [|c p Hc Hp IH]; intros acc Hacc; simpl; [done|].
  by apply IH, resolve_step_ok.
Qed.

(** The string of a resolved [Path(s)] parses back to it. *)
Lemma resolve_path_str_roundtrip s :
  path_of_str (path_str (resolve (path_of_str s))) = resolve (path_of_str s).
Proof.
  apply path_of_str_path_str, resolve_ok.
  eapply Forall_impl; [apply path_of_str_ok|]. intros c Hc%component_ok_spec. naive_solver.
Qed.

#[export] Hint Resolve under_refl : transponster.
#[export] Hint Rewrite lookup_remove_tree_inside lookup_remove_tree_outside
  using (assumption || apply under_refl) : py_simpl.
