(* ===== verification/WrappedQueue.v ===== *)
(** * Closable queues: the interface and [transponster.util.WrappedQueue]

    The processing thread talks to its two queues through four methods:
    [put], [get] (blocking; raises [ClosedException] once the queue is
    closed and drained), [empty] and [close].  [ClosableQueue] is that
    interface, [ClosableQueueLaws] its contract, stated on the abstract
    view of a queue: the list of queued items and the closed flag.  The
    thread's theorems use only the laws.  [WQ] implements the interface
    (modelled from the spec: [transponster.util] is not part of [src/])
    and discharges the laws.  Two queues with the same view are equivalent
    ([≡]); the operations respect the equivalence. *)

From stdpp Require Import base list strings.
From S2P Require Import Prelude.

(** The answer of a [get]: an item and the queue after it, the
    [ClosedException] signal, or "the caller blocks". *)
Inductive QGet (A Q : Type) : Type :=
| QGot (x : A) (q : Q)
| QClosed
| QBlocks.
Arguments QGot {A Q} x q.
Arguments QClosed {A Q}.
Arguments QBlocks {A Q}.

Class ClosableQueue (Q : Type -> Type) := {
  q_new : forall {A}, Q A;
  q_put : forall {A}, A -> Q A -> Q A;
  q_get : forall {A}, Q A -> QGet A (Q A);
  q_empty : forall {A}, Q A -> bool;
  q_close : forall {A}, Q A -> Q A;
  (** the abstract view *)
  q_items : forall {A}, Q A -> list A;
  q_closed : forall {A}, Q A -> bool;
}.

(** What a [get] answer must be, given the view of the queue asked. *)
Definition get_ok `{ClosableQueue Q} {A} (q : Q A) (r : QGet A (Q A)) : Prop :=
  match r with
  | QGot x q' => q_items q = x :: q_items q' /\ q_closed q' = q_closed q
  | QClosed => q_items q = [] /\ q_closed q = true
  | QBlocks => q_items q = [] /\ q_closed q = false
  end.

Class ClosableQueueLaws (Q : Type -> Type) `{ClosableQueue Q} := {
  q_new_items A : q_items (@q_new Q _ A) = [];
  q_new_closed A : q_closed (@q_new Q _ A) = false;
  q_put_items A (x : A) q : q_items (q_put x q) = q_items q ++ [x];
  q_put_closed A (x : A) q : q_closed (q_put x q) = q_closed q;
  q_close_items A (q : Q A) : q_items (q_close q) = q_items q;
  q_close_closed A (q : Q A) : q_closed (q_close q) = true;
  q_empty_items A (q : Q A) : q_empty q = bool_decide (q_items q = []);
  q_get_ok A (q : Q A) : get_ok q (q_get q);
}.

#[export] Hint Rewrite @q_new_items @q_new_closed @q_put_items @q_put_closed
  @q_close_items @q_close_closed : py_simpl.

(** ** The Python methods, as statements on the queue *)

Definition ClosedException : PyExn := mkPyExn "ClosedException" [] true.

Section Methods.
Context `{ClosableQueue Q} {A : Type}.

Definition queue_get : PyM (Q A) A :=
  fun q =>
    match q_get q with
    | QGot x q' => Normal x q'
    | QClosed => Raised ClosedException q
    | QBlocks => Blocked q
    end.

Definition queue_put (x : A) : PyM (Q A) unit := py_modify (q_put x).
Definition queue_close : PyM (Q A) unit := py_modify q_close.
Definition queue_empty : PyM (Q A) bool := py_gets q_empty.
End Methods.

(** ** The implementation: [transponster.util.WrappedQueue] *)

(** A FIFO of items and the flag [close()] sets. *)
Record WQ (A : Type) := mkWQ { wq_items : list A; wq_closed : bool }.
Arguments mkWQ {A} wq_items wq_closed.
Arguments wq_items {A} w.
Arguments wq_closed {A} w.

#[export] Instance WQ_ClosableQueue : ClosableQueue WQ := {
  q_new A := mkWQ [] false;
  q_put A x q := mkWQ (wq_items q ++ [x]) (wq_closed q);
  q_get A q :=
    match wq_items q with
    | x :: xs => QGot x (mkWQ xs (wq_closed q))
    | [] => if wq_closed q then QClosed else QBlocks
    end;
  q_empty A q := match wq_items q with [] => true | _ => false end;
  q_close A q := mkWQ (wq_items q) true;
  q_items A := wq_items;
  q_closed A := wq_closed;
}.

(** A second implementation of the interface, with a different
    representation: a front list and a reversed back list.  It is not
    code of the repository; it shows that the contract, not the list
    representation, is what the thread's theorems use. *)
Record BQ (A : Type) := mkBQ { bq_front : list A; bq_back : list A; bq_closed : bool }.
Arguments mkBQ {A} bq_front bq_back bq_closed.
Arguments bq_front {A} b.
Arguments bq_back {A} b.
Arguments bq_closed {A} b.

#[export] Instance BQ_ClosableQueue : ClosableQueue BQ := {
  q_new A := mkBQ [] [] false;
  q_put A x q := mkBQ (bq_front q) (x :: bq_back q) (bq_closed q);
  q_get A q :=
    match bq_front q with
    | x :: f => QGot x (mkBQ f (bq_back q) (bq_closed q))
    | [] =>
        match reverse (bq_back q) with
        | x :: f => QGot x (mkBQ f [] (bq_closed q))
        | [] => if bq_closed q then QClosed else QBlocks
        end
    end;
  q_empty A q := match bq_front q, bq_back q with [], [] => true | _, _ => false end;
  q_close A q := mkBQ (bq_front q) (bq_back q) true;
  q_items A q := bq_front q ++ reverse (bq_back q);
  q_closed A := bq_closed;
}.

(** ** Sequences of operations *)

Section Sequences.
Context `{ClosableQueue Q} {A : Type}.

(** A producer's [for x in xs: q.put(x)]. *)
Definition put_all (xs : list A) (q : Q A) : Q A := foldl (fun q x => q_put x q) q xs.

(** A consumer's [n] successive [get()] calls, stopping at the first one
    that raises or would block. *)
Fixpoint get_n (n : nat) (q : Q A) : list A * Q A :=
  match n with
  | 0 => ([], q)
  | S n' =>
      match q_get q with
      | QGot x q' => let '(ys, q'') := get_n n' q' in (x :: ys, q'')
      | _ => ([], q)
      end
  end.

End Sequences.

(** ** Data refinement: any lawful queue behaves as [WQ] on its view *)

Definition wq_abs `{ClosableQueue Q} {A} (q : Q A) : WQ A :=
  mkWQ (q_items q) (q_closed q).

(** ** The view equivalence *)

#[export] Instance queue_equiv `{ClosableQueue Q} {A} : Equiv (Q A) :=
  fun q1 q2 => q_items q1 = q_items q2 /\ q_closed q1 = q_closed q2.

Section Equivalence.
Context `{ClosableQueueLaws Q} {A : Type}.

#[export] Instance queue_equiv_equivalence : Equivalence (≡@{Q A}).
Proof.
  unfold equiv, queue_equiv. split; red; intros; intuition congruence.
Qed.

#[export] Instance q_put_proper (x : A) : Proper ((≡) ==> (≡)) (q_put x).
Proof. intros q1 q2 [E1 E2]. split; rewrite ?q_put_items, ?q_put_closed; congruence. Qed.

#[export] Instance q_close_proper : Proper ((≡) ==> (≡@{Q A})) q_close.
Proof. intros q1 q2 [E1 E2]. split; rewrite ?q_close_items, ?q_close_closed; congruence. Qed.

#[export] Instance q_empty_proper : Proper ((≡) ==> (=)) (@q_empty Q _ A).
Proof. intros q1 q2 [E1 _]. rewrite !q_empty_items, E1; done. Qed.

#[export] Instance q_items_proper : Proper ((≡) ==> (=)) (@q_items Q _ A).
Proof. by intros q1 q2 [E1 _]. Qed.

#[export] Instance q_closed_proper : Proper ((≡) ==> (=)) (@q_closed Q _ A).
Proof. by intros q1 q2 [_ E2]. Qed.

(** The answer of [get] read off the view. *)
Lemma q_get_got (q q' : Q A) x :
  q_get q = QGot x q' -> q_items q = x :: q_items q' /\ q_closed q' = q_closed q.
Proof. intros E. pose proof (q_get_ok A q) as G. by rewrite E in G. Qed.

Lemma q_get_cons (q : Q A) x xs :
  q_items q = x :: xs ->
  exists q', q_get q = QGot x q' /\ q_items q' = xs /\ q_closed q' = q_closed q.
Proof.
  intros E. pose proof (q_get_ok A q) as G.
  destruct (q_get q) as [y q'| |]; simpl in G; rewrite E in G;
    destruct G as [G1 G2]; try discriminate.
  injection G1 as -> ->. by exists q'.
Qed.

Lemma q_get_nil_closed (q : Q A) :
  q_items q = [] -> q_closed q = true -> q_get q = QClosed.
Proof.
  intros E C. pose proof (q_get_ok A q) as G.
  destruct (q_get q); simpl in G; rewrite ?E, ?C in G; naive_solver.
Qed.

Lemma q_get_nil_open (q : Q A) :
  q_items q = [] -> q_closed q = false -> q_get q = QBlocks.
Proof.
  intros E C. pose proof (q_get_ok A q) as G.
  destruct (q_get q); simpl in G; rewrite ?E, ?C in G; naive_solver.
Qed.

Lemma q_empty_true (q : Q A) : q_empty q = true <-> q_items q = [].
Proof. rewrite q_empty_items. apply bool_decide_eq_true. Qed.
End Equivalence.

#[export] Instance WQ_laws : ClosableQueueLaws WQ.
Proof.
  split; try reflexivity.
  - intros A [[|x xs] c]; reflexivity.
  - intros A [[|x xs] [|]]; simpl; auto.
Qed.

#[export] Instance BQ_laws : ClosableQueueLaws BQ.
Proof.
  split; try reflexivity.
  - intros A x [f b c].
    change (f ++ reverse (x :: b) = (f ++ reverse b) ++ [x]).
    by rewrite reverse_cons, app_assoc.
  - intros A [f b c].
    change ((match f, b with [], [] => true | _, _ => false end) =
      bool_decide (f ++ reverse b = [])).
    case_bool_decide as E; destruct f as [|x f], b as [|y b]; try done.
    rewrite app_nil_l, reverse_cons in E. by apply app_nil in E as [_ ?].
  - intros A [[|x f] b c]; unfold get_ok; simpl; [|done].
    destruct (reverse b) as [|y r]; simpl; [by destruct c|].
    by rewrite app_nil_r.
Qed.

Section SequenceLemmas.
Context `{ClosableQueueLaws Q} {A : Type}.

Lemma put_all_items (xs : list A) (q : Q A) : q_items (put_all xs q) = q_items q ++ xs.
Proof.
  unfold put_all. revert q. induction xs as [|x xs IH]; intros q; cbn [foldl].
  - by rewrite app_nil_r.
  - rewrite IH, q_put_items. by rewrite <- app_assoc.
Qed.

Lemma put_all_closed (xs : list A) (q : Q A) : q_closed (put_all xs q) = q_closed q.
Proof.
  unfold put_all. revert q. induction xs as [|x xs IH]; intros q; [done|].
  cbn [foldl]. by rewrite IH, q_put_closed.
Qed.

Lemma get_n_items n (q : Q A) :
  n <= length (q_items q) ->
  (get_n n q).1 = take n (q_items q) /\
  q_items (get_n n q).2 = drop n (q_items q) /\
  q_closed (get_n n q).2 = q_closed q.
Proof.
  revert q. induction n as [|n IH]; intros q Hn; [done|]. simpl.
  destruct (q_items q) as [|x xs] eqn:E; simpl in Hn; [lia|].
  destruct (q_get_cons q x xs E) as (q' & -> & E' & C').
  destruct (get_n n q') as [ys q''] eqn:G. simpl.
  destruct (IH q') as (I1 & I2 & I3); [rewrite E'; lia|].
  rewrite G in I1, I2, I3. simpl in *. rewrite <- E', I1, I2, I3, C'. done.
Qed.
End SequenceLemmas.

(** ** The contract, as the processing thread relies on it *)

Section Contract.
Context `{ClosableQueueLaws Q} {A : Type}.

(** FIFO.  Whatever a queue holds, putting [xs] after it and then
    calling [get()] once per item returns the old items followed by [xs],
    in order, and leaves the queue drained with its closed flag. *)
Theorem queue_fifo (xs : list A) (q : Q A) :
  let r := get_n (length (q_items q) + length xs) (put_all xs q) in
  r.1 = q_items q ++ xs /\ q_items r.2 = [] /\ q_closed r.2 = q_closed q.
Proof.
  pose proof (put_all_items xs q) as Ei.
  destruct (get_n_items (length (q_items q) + length xs) (put_all xs q))
    as (I1 & I2 & I3); [rewrite Ei, length_app; lia|].
  rewrite Ei in I1, I2.
  rewrite take_ge in I1 by (rewrite length_app; lia).
  rewrite drop_ge in I2 by (rewrite length_app; lia).
  simpl. split_and!; [done | done | by rewrite I3, put_all_closed].
Qed.

(** [get()] on a closed queue never blocks: it returns the head
    while items remain and raises [ClosedException] once drained. *)
Theorem queue_get_closed (q : Q A) :
  q_closed q = true ->
  match queue_get q with
  | Normal x q' => q_items q = x :: q_items q' /\ q_closed q' = true
  | Raised e q' => e = ClosedException /\ q' = q /\ q_items q = []
  | Blocked _ => False
  end.
Proof.
  intros C. unfold queue_get. pose proof (q_get_ok A q) as G.
  destruct (q_get q); simpl in G; intuition congruence.
Qed.

(** [close()] is idempotent: closing twice leaves a queue
    equivalent to closing once, and closing never changes the items. *)
Theorem queue_close_idempotent (q : Q A) :
  q_close (q_close q) ≡ q_close q /\ q_items (q_close q) = q_items q.
Proof.
  split; [split|]; by rewrite ?q_close_items, ?q_close_closed.
Qed.
End Contract.


(** ** The abstraction commutes with every method *)

Section Abstraction.
Context `{ClosableQueueLaws Q} {A : Type}.

Lemma wq_abs_put (x : A) (q : Q A) : wq_abs (q_put x q) = q_put x (wq_abs q).
Proof. unfold wq_abs. by rewrite q_put_items, q_put_closed. Qed.

Lemma wq_abs_close (q : Q A) : wq_abs (q_close q) = q_close (wq_abs q).
Proof. unfold wq_abs. by rewrite q_close_items, q_close_closed. Qed.

Lemma wq_abs_empty (q : Q A) : q_empty q = q_empty (wq_abs q).
Proof. rewrite q_empty_items. simpl. by destruct (q_items q). Qed.

Lemma sim_queue_put (x : A) : py_sim wq_abs (@queue_put Q _ A x) (queue_put x).
Proof. apply py_sim_modify, wq_abs_put. Qed.

Lemma sim_queue_close : py_sim wq_abs (@queue_close Q _ A) queue_close.
Proof. apply py_sim_modify, wq_abs_close. Qed.

Lemma sim_queue_empty : py_sim wq_abs (@queue_empty Q _ A) queue_empty.
Proof. apply py_sim_gets, wq_abs_empty. Qed.

Lemma sim_queue_get : py_sim wq_abs (@queue_get Q _ A) queue_get.
Proof.
  intros q. unfold queue_get. pose proof (q_get_ok A q) as G.
  destruct (q_get q) as [x q'| |]; simpl in G; destruct G as [G1 G2];
    unfold wq_abs at 2; simpl; rewrite G1; simpl; [by rewrite <- G2| |];
    by rewrite G2.
Qed.
End Abstraction.

#[export] Hint Resolve sim_queue_put sim_queue_close sim_queue_empty
  sim_queue_get : transponster.
