(* ===== verification/Util.v ===== *)
(** * The data of [transponster.util] the processing thread uses

    [JobBatch] (a temporary working directory and the input folder it was
    downloaded from), [ErrorType], [FailedJobBatch] (the record put on the
    error queue), and the [Script] capability the thread runs on a working
    directory.  [transponster.util] is not part of [src/]: these are
    modelled from the spec.  A script is a statement on the file system:
    it returns, raises (with whatever it already did to the files), or
    hangs.  [ScriptConfined] is the law "a script only touches the tree of
    the directory it is given"; [ScriptTerminates] says it never hangs. *)

From stdpp Require Import base list gmap strings.
From S2P Require Import Prelude Filesystem.

(** [tempfile.TemporaryDirectory]: the thread reads only its [name], an
    absolute path string. *)
Record TemporaryDirectory := mkTemporaryDirectory { tmp_name : string }.

Record JobBatch := mkJobBatch {
  tmp_dir : TemporaryDirectory;
  input_folder_path : Path;
}.

#[export] Instance TemporaryDirectory_eq_dec : EqDecision TemporaryDirectory.
Proof. solve_decision. Defined.
#[export] Instance JobBatch_eq_dec : EqDecision JobBatch.
Proof. solve_decision. Defined.

(** The classification of a failure; the processing stage only emits
    [PROCESSING_FAILED], the download stage [DOWNLOAD_FAILED]. *)
Inductive ErrorType := DOWNLOAD_FAILED | PROCESSING_FAILED.

#[export] Instance ErrorType_eq_dec : EqDecision ErrorType.
Proof. solve_decision. Defined.

(** [FailedJobBatch(job_batch, error_message, error_type)]. *)
Record FailedJobBatch := mkFailedJobBatch {
  failed_job_batch : JobBatch;
  error_message : string;
  error_type : ErrorType;
}.

#[export] Instance FailedJobBatch_eq_dec : EqDecision FailedJobBatch.
Proof. solve_decision. Defined.

(** [Script.run(path)]: a statement on the file system. *)
Class Script := script_run : Path -> PyM FS unit.

(** The script leaves every path outside the tree of its argument as it
    was, whether it returns, raises or hangs. *)
Class ScriptConfined `{Script} :=
  script_confined wd fs p :
    ~ under wd p -> outcome_state (script_run wd fs) !! p = fs !! p.

(** The script always returns or raises. *)
Class ScriptTerminates `{Script} :=
  script_terminates wd fs s : script_run wd fs <> Blocked s.
