(* ===== verification/ProcessingThread.v ===== *)
(** * [ProcessingThread]: [src/transponster/processing_thread.py]

    The thread object is the record [ProcessingThread] of its attributes
    ([downloaded], [to_upload], [error_queue], [done]) together with the
    file system its script and [rmtree] act on and the log its [logger]
    writes.  The script is the [Script] instance of the section
    ([self.script]).  [run] (lines 39-79) is cut at its program points:
    [loop_test] is the [while] condition (line 41), [loop_body] one pass of
    the body (lines 42-76: [get_next], then [forward_skip] or
    [process_batch] with its [except Exception] handler [report_failure]
    and its success path [finish_batch]), [finish_run] the two lines after
    the loop.  [pt_step] moves the program counter [PC] by one of these;
    a [Blocked] body (a [get] with nothing to take) does not step.

    The thread is written for any [ClosableQueue]; [sim_pt_step] and
    [sim_run_thread] show that it behaves, through [pt_abs], as the thread
    on the list queue [WQ], so behaviour is computed there.

    [item_spec] is what one input item becomes (spec, section 4.2, steps
    2-5) and [stage_spec] the whole stage on a closed input queue, both
    pure functions of the items and the file system, without queues,
    flags or the monad.  The theorems C1-C10 show that [loop_body] and
    [run_thread] implement them and what each branch of [run] does; the
    witnesses run scenario E of the spec. *)

From stdpp Require Import base list gmap strings.
From S2P Require Import Prelude Filesystem WrappedQueue Util.

Local Open Scope py_scope.

(** An item of the queues: a batch, or [None], the skip marker. *)
Abbreviation Item := (option JobBatch).

(** What the thread's [structlog] logger receives. *)
Inductive LogEntry :=
| LogInfo (msg : string)
| LogError (failed_batch : FailedJobBatch).

Record ProcessingThread (Q : Type -> Type) := mkProcessingThread {
  downloaded : Q Item;
  to_upload : Q Item;
  error_queue : list FailedJobBatch;
  done : bool;
  fs : FS;
  log : list LogEntry;
}.
Arguments mkProcessingThread {Q} downloaded to_upload error_queue done fs log.
Arguments downloaded {Q} p.
Arguments to_upload {Q} p.
Arguments error_queue {Q} p.
Arguments done {Q} p.
Arguments fs {Q} p.
Arguments log {Q} p.

Section Setters.
Context {Q : Type -> Type}.
Implicit Types st : ProcessingThread Q.

Definition set_downloaded q st := mkProcessingThread q (to_upload st)
  (error_queue st) (done st) (fs st) (log st).
Definition set_to_upload q st := mkProcessingThread (downloaded st) q
  (error_queue st) (done st) (fs st) (log st).
Definition set_error_queue l st := mkProcessingThread (downloaded st)
  (to_upload st) l (done st) (fs st) (log st).
Definition set_done b st := mkProcessingThread (downloaded st)
  (to_upload st) (error_queue st) b (fs st) (log st).
Definition set_fs f st := mkProcessingThread (downloaded st)
  (to_upload st) (error_queue st) (done st) f (log st).
Definition set_log l st := mkProcessingThread (downloaded st)
  (to_upload st) (error_queue st) (done st) (fs st) l.
End Setters.

(** How a pass of the loop body ends: [continue] or [break]. *)
Inductive flow := Continue | Break.

(** The program points of [run]. *)
Inductive PC :=
| AtTest            (** line 41, the [while] condition *)
| AtBody            (** line 42, the first statement of the body *)
| AtClose           (** line 78, after the loop *)
| Exited            (** [run] returned *)
| Crashed (e : PyExn). (** an exception escaped [run] *)

(** [except ClosedException]. *)
Definition is_ClosedException (e : PyExn) : bool :=
  bool_decide (exn_class e = "ClosedException").

Section Thread.
Context `{ClosableQueue Q} `{Script}.

Abbreviation PT := (ProcessingThread Q).

(** Lines 23-37: [__init__]. *)
Definition pt_init (downloaded to_upload : Q Item)
    (error_queue : list FailedJobBatch) (fs : FS) : PT :=
  mkProcessingThread downloaded to_upload error_queue false fs [].

Definition log_info (msg : string) : PyM PT unit :=
  py_modify (fun st => set_log (log st ++ [LogInfo msg]) st).

(** Line 41: [not (self.downloaded.empty() and self.done)]. *)
Definition loop_test : PyM PT bool :=
  e <- py_zoom downloaded set_downloaded queue_empty ;;
  if e then (d <- py_gets done ;; py_ret (negb d)) else py_ret true.

(** Lines 42-47: [get()], or [done = True] and [break]
    ([None] here) on [ClosedException]. *)
Definition get_next : PyM PT (option Item) :=
  log_info "Waiting for next batch to process" ;;
  py_try (x <- py_zoom downloaded set_downloaded queue_get ;; py_ret (Some x))
    is_ClosedException
    (fun _ => py_modify (set_done true) ;; py_ret None).

(** Lines 49-52: a skip marker is passed on. *)
Definition forward_skip : PyM PT flow :=
  log_info "Processing: Batch is empty do to previous error" ;;
  py_zoom to_upload set_to_upload (queue_put None) ;;
  py_ret Continue.

(** Lines 61-66: the [except Exception] handler. *)
Definition report_failure (job_batch : JobBatch) (e : PyExn) : PyM PT unit :=
  let failed_batch := mkFailedJobBatch job_batch (py_repr e) PROCESSING_FAILED in
  py_modify (fun st => set_log (log st ++ [LogError failed_batch]) st) ;;
  py_modify (fun st => set_error_queue (error_queue st ++ [failed_batch]) st) ;;
  py_zoom to_upload set_to_upload (queue_put None).

(** Lines 69-76: the script succeeded. *)
Definition finish_batch (job_batch : JobBatch) (working_dir input_folder : Path) :
    PyM PT flow :=
  log_info ("Finished running script on " +:+ path_str working_dir +:+ ", removing input") ;;
  py_zoom fs set_fs (rmtree input_folder) ;;
  py_zoom to_upload set_to_upload (queue_put (Some job_batch)) ;;
  py_ret Continue.

(** Lines 53-76: a batch. *)
Definition process_batch (job_batch : JobBatch) : PyM PT flow :=
  log_info ("Got batch at folder " +:+ tmp_name (tmp_dir job_batch)) ;;
  let working_dir := resolve (path_of_str (tmp_name (tmp_dir job_batch))) in
  let input_folder := input_folder_path job_batch in
  log_info ("Running script on " +:+ path_str working_dir) ;;
  ok <- py_try (py_zoom fs set_fs (script_run working_dir) ;; py_ret true)
          catches_Exception
          (fun e => report_failure job_batch e ;; py_ret false) ;;
  if ok then finish_batch job_batch working_dir input_folder
  else py_ret Continue.

(** Lines 42-76: one pass of the loop body. *)
Definition loop_body : PyM PT flow :=
  o <- get_next ;;
  match o with
  | None => py_ret Break
  | Some None => forward_skip
  | Some (Some job_batch) => process_batch job_batch
  end.

(** Lines 78-79. *)
Definition finish_run : PyM PT unit :=
  py_zoom to_upload set_to_upload queue_close ;;
  log_info "Processing thread done".

Definition resume {A} (o : outcome PT A) (next : A -> PC) : option (PC * PT) :=
  match o with
  | Normal a st => Some (next a, st)
  | Raised e st => Some (Crashed e, st)
  | Blocked _ => None
  end.

(** Lines 39-79: one step of [run]. *)
Definition pt_step (c : PC * PT) : option (PC * PT) :=
  let '(pc, st) := c in
  match pc with
  | AtTest => resume (loop_test st) (fun b => if b then AtBody else AtClose)
  | AtBody => resume (loop_body st)
                (fun f => match f with Continue => AtTest | Break => AtClose end)
  | AtClose => resume (finish_run st) (fun _ => Exited)
  | Exited | Crashed _ => None
  end.

(** [run], for at most [fuel] steps; it stops early when the thread has
    returned, crashed or waits on a [get]. *)
Fixpoint run_thread (fuel : nat) (c : PC * PT) : PC * PT :=
  match fuel with
  | 0 => c
  | S n => match pt_step c with Some c' => run_thread n c' | None => c end
  end.
End Thread.

(** The log after the first line of the body. *)
Definition waiting_log {Q} (st : ProcessingThread Q) : list LogEntry :=
  log st ++ [LogInfo "Waiting for next batch to process"].

(** ** Data refinement: the thread on any lawful queue is the [WQ] thread *)

Definition pt_abs `{ClosableQueue Q} (st : ProcessingThread Q) : ProcessingThread WQ :=
  mkProcessingThread (wq_abs (downloaded st)) (wq_abs (to_upload st))
    (error_queue st) (done st) (fs st) (log st).

(** ** The reference specification of the stage *)

(** What one item of the input queue becomes (spec, section 4.2, steps
    2-5): a skip marker is forwarded; a batch whose script returns has its
    input folder deleted and is forwarded; a batch whose script raises an
    [Exception] is reported and replaced by a skip marker; anything else
    escapes; a hanging script hangs the stage. *)
Inductive ItemOutcome :=
| Forwarded (out : Item) (failure : option FailedJobBatch) (fs' : FS)
| Escaped (e : PyExn) (fs' : FS)
| Hangs.

(** How a run of the stage ends. *)
Inductive Status := Finished | Died (e : PyExn) | Hung.

Section Spec.
Context `{Script}.

Definition item_spec (x : Item) (fs0 : FS) : ItemOutcome :=
  match x with
  | None => Forwarded None None fs0
  | Some jb =>
      match script_run (resolve (path_of_str (tmp_name (tmp_dir jb)))) fs0 with
      | Blocked _ => Hangs
      | Raised e fs1 =>
          if catches_Exception e
          then Forwarded None (Some (mkFailedJobBatch jb (py_repr e) PROCESSING_FAILED)) fs1
          else Escaped e fs1
      | Normal _ fs1 =>
          match rmtree (input_folder_path jb) fs1 with
          | Normal _ fs2 => Forwarded (Some jb) None fs2
          | Raised e fs2 => Escaped e fs2
          | Blocked _ => Hangs
          end
      end
  end.

(** The whole stage on a closed input queue holding [xs]: the items put
    on the output queue, the failures reported, the final file system,
    and how the run ends. *)
Fixpoint stage_spec (xs : list Item) (fs0 : FS) :
    list Item * list FailedJobBatch * FS * Status :=
  match xs with
  | [] => ([], [], fs0, Finished)
  | x :: xs' =>
      match item_spec x fs0 with
      | Forwarded o err fs1 =>
          let '(os, es, fs2, s) := stage_spec xs' fs1 in
          (o :: os, option_list err ++ es, fs2, s)
      | Escaped e fs1 => ([], [], fs1, Died e)
      | Hangs => ([], [], fs0, Hung)
      end
  end.

(** What the logger receives while one item is handled (lines 42, 50,
    53, 57, 64, 69-71): the lines written before the script runs, then
    the success line or the failure record.  A hanging script leaves its
    pass unfinished; [stage_log] does not count it. *)
Definition item_log (x : Item) (fs0 : FS) : list LogEntry :=
  LogInfo "Waiting for next batch to process" ::
  match x with
  | None => [LogInfo "Processing: Batch is empty do to previous error"]
  | Some jb =>
      let wd := resolve (path_of_str (tmp_name (tmp_dir jb))) in
      LogInfo ("Got batch at folder " +:+ tmp_name (tmp_dir jb)) ::
      LogInfo ("Running script on " +:+ path_str wd) ::
      match script_run wd fs0 with
      | Normal _ _ =>
          [LogInfo ("Finished running script on " +:+ path_str wd +:+ ", removing input")]
      | Raised e _ =>
          if catches_Exception e
          then [LogError (mkFailedJobBatch jb (py_repr e) PROCESSING_FAILED)]
          else []
      | Blocked _ => []
      end
  end.

(** The log of the whole stage on a closed input queue holding [xs]. *)
Fixpoint stage_log (xs : list Item) (fs0 : FS) : list LogEntry :=
  match xs with
  | [] => [LogInfo "Waiting for next batch to process"; LogInfo "Processing thread done"]
  | x :: xs' =>
      match item_spec x fs0 with
      | Forwarded _ _ fs1 => item_log x fs0 ++ stage_log xs' fs1
      | Escaped _ _ => item_log x fs0
      | Hangs => []
      end
  end.
End Spec.

(** ** Demo data: scenario E of the spec *)

(** Scenario E of the spec: three batches, the script fails on the second. *)
Definition demo_error : PyExn := mkPyExn "RuntimeError" ["'exit status 1'"] true.

Definition demo_batch (n : string) : JobBatch :=
  mkJobBatch (mkTemporaryDirectory ("/tmp/" +:+ n)) ["in"; n].

Definition demo_script : Script :=
  fun wd fs0 => if decide (wd = ["tmp"; "b2"]) then Raised demo_error fs0 else Normal tt fs0.

Definition demo_fs : FS :=
  list_to_map [(["in"; "b1"], Dir); (["in"; "b2"], Dir); (["in"; "b3"], Dir);
               (["in"; "b3"; "data"], File)].

Definition demo_down : WQ Item :=
  mkWQ [Some (demo_batch "b1"); Some (demo_batch "b2"); Some (demo_batch "b3")] true.

Definition demo_up : WQ Item := mkWQ [] false.

(** A script interrupted by Ctrl-C: a [BaseException] that is not an
    [Exception]. *)
Definition demo_interrupt : PyExn := mkPyExn "KeyboardInterrupt" [] false.

Definition demo_interrupt_script : Script := fun _ fs0 => Raised demo_interrupt fs0.

(** The thread as [__init__] leaves it, on a closed input queue. *)
Definition demo_thread (xs : list Item) : ProcessingThread WQ :=
  pt_init (mkWQ xs true) demo_up [] demo_fs.

(** One structural step of a simulation proof between two copies of the
    same program. *)
Ltac sim_step :=
  match goal with
  | |- py_sim _ (py_bind _ _) (py_bind _ _) => apply py_sim_bind; [|intros ?]
  | |- py_sim _ (py_try _ _ _) (py_try _ _ _) => apply py_sim_try; [|intros ?]
  | |- py_sim _ (py_zoom fs _ _) (py_zoom fs _ _) =>
      apply (py_sim_zoom _ id); [intros; reflexivity | intros; reflexivity | apply py_sim_id]
  | |- py_sim _ (py_zoom _ _ _) (py_zoom _ _ _) =>
      eapply py_sim_zoom; [intros; reflexivity | intros; reflexivity |]
  | |- py_sim _ (py_modify _) (py_modify _) => apply py_sim_modify; intros; reflexivity
  | |- py_sim _ (py_gets _) (py_gets _) => apply py_sim_gets; intros; reflexivity
  | |- py_sim _ (match ?x with _ => _ end) _ => destruct x
  | |- py_sim _ _ _ => solve [eauto with transponster]
  end.

Section Refinement.
Context `{ClosableQueueLaws Q} `{Script}.

Lemma sim_log_info msg : py_sim pt_abs (@log_info Q msg) (log_info msg).
Proof. unfold log_info. repeat sim_step. Qed.
#[local] Hint Resolve sim_log_info : transponster.

Lemma sim_loop_test : py_sim pt_abs (@loop_test Q _) loop_test.
Proof. unfold loop_test. repeat sim_step. Qed.

Lemma sim_loop_body : py_sim pt_abs (@loop_body Q _ _) loop_body.
Proof.
  unfold loop_body, get_next, forward_skip, process_batch, report_failure,
    finish_batch.
  repeat sim_step.
Qed.

Lemma sim_finish_run : py_sim pt_abs (@finish_run Q _) finish_run.
Proof. unfold finish_run. repeat sim_step. Qed.

Lemma sim_resume {A} (o : outcome (ProcessingThread Q) A) next :
  prod_map id pt_abs <$> resume o next = resume (outcome_map pt_abs o) next.
Proof. by destruct o. Qed.

(** The step of the generic thread, seen through [pt_abs], is the step
    of the [WQ] thread. *)
Lemma sim_pt_step (c : PC * ProcessingThread Q) :
  prod_map id pt_abs <$> pt_step c = pt_step (prod_map id pt_abs c).
Proof.
  destruct c as [pc st]. change (prod_map id pt_abs (pc, st)) with (pc, pt_abs st).
  destruct pc; unfold pt_step; try done; rewrite sim_resume; f_equal;
    [apply sim_loop_test | apply sim_loop_body | apply sim_finish_run].
Qed.

Lemma sim_run_thread n (c : PC * ProcessingThread Q) :
  prod_map id pt_abs (run_thread n c) = run_thread n (prod_map id pt_abs c).
Proof.
  revert c. induction n as [|n IH]; intros c; [done|]. cbn [run_thread].
  rewrite <- sim_pt_step. destruct (pt_step c); [apply IH | done].
Qed.

Lemma sim_run_thread_at n pc (st : ProcessingThread Q) :
  run_thread n (pc, pt_abs st) = prod_map id pt_abs (run_thread n (pc, st)).
Proof. by rewrite sim_run_thread. Qed.
End Refinement.

(** ** Running the step function *)

Lemma run_thread_stop `{ClosableQueue Q} `{Script} n (c : PC * ProcessingThread Q) :
  pt_step c = None -> run_thread n c = c.
Proof. destruct n; simpl; [done|]. by intros ->. Qed.

Lemma run_thread_step `{ClosableQueue Q} `{Script} n (c c' : PC * ProcessingThread Q) :
  pt_step c = Some c' -> run_thread (S n) c = run_thread n c'.
Proof. simpl. by intros ->. Qed.

(** The equations of [pt_step] at each program point. *)
Section StepEquations.
Context `{ClosableQueue Q} `{Script}.
Implicit Types st : ProcessingThread Q.

Lemma pt_step_body st :
  pt_step (AtBody, st) =
  resume (loop_body st) (fun f => match f with Continue => AtTest | Break => AtClose end).
Proof. reflexivity. Qed.

Lemma loop_test_eq st :
  loop_test st =
  Normal (if q_empty (downloaded st) then negb (done st) else true)
    (set_downloaded (downloaded st) st).
Proof. unfold loop_test. py_unfold. unfold py_zoom, queue_empty. simpl. by destruct (q_empty _). Qed.

Lemma finish_run_eq st :
  finish_run st =
  Normal tt (set_log (log st ++ [LogInfo "Processing thread done"])
    (set_to_upload (q_close (to_upload st)) st)).
Proof. reflexivity. Qed.

Lemma pt_step_test st :
  pt_step (AtTest, st) = resume (loop_test st) (fun b => if b then AtBody else AtClose).
Proof. reflexivity. Qed.

Lemma pt_step_close st :
  pt_step (AtClose, st) = resume (finish_run st) (fun _ => Exited).
Proof. reflexivity. Qed.
End StepEquations.


(** ** [get_next] on any lawful queue *)

Section GetNext.
Context `{ClosableQueueLaws Q}.
Implicit Types st : ProcessingThread Q.

Lemma get_next_cons st x xs :
  q_items (downloaded st) = x :: xs ->
  exists q', get_next st = Normal (Some x)
    (mkProcessingThread q' (to_upload st) (error_queue st) (done st) (fs st)
       (waiting_log st)) /\
    q_items q' = xs /\ q_closed q' = q_closed (downloaded st).
Proof.
  intros E. destruct (q_get_cons _ _ _ E) as (q' & G & I & C).
  exists q'. unfold get_next, log_info, waiting_log. py_unfold.
  unfold py_zoom, queue_get. simpl. by rewrite G.
Qed.

Lemma get_next_closed st :
  q_items (downloaded st) = [] -> q_closed (downloaded st) = true ->
  get_next st = Normal None
    (mkProcessingThread (downloaded st) (to_upload st) (error_queue st) true
       (fs st) (waiting_log st)).
Proof.
  intros E C. unfold get_next, log_info, waiting_log. py_unfold.
  unfold py_zoom, queue_get. simpl. by rewrite q_get_nil_closed.
Qed.

Lemma get_next_open st :
  q_items (downloaded st) = [] -> q_closed (downloaded st) = false ->
  exists s, get_next st = Blocked s.
Proof.
  intros E C. unfold get_next, log_info. py_unfold.
  unfold py_zoom, queue_get. simpl. rewrite q_get_nil_open by done. by eexists.
Qed.
End GetNext.

Lemma loop_body_unfold `{ClosableQueue Q} `{Script} (st : ProcessingThread Q) :
  loop_body st =
  match get_next st with
  | Normal None st1 => Normal Break st1
  | Normal (Some None) st1 => forward_skip st1
  | Normal (Some (Some jb)) st1 => process_batch jb st1
  | Raised e st1 => Raised e st1
  | Blocked st1 => Blocked st1
  end.
Proof. unfold loop_body, py_bind. by destruct (get_next st) as [[[]|]| |]. Qed.

(** Compute one pass of the body on the list queue.  The branches are
    chosen before the body is unfolded, so that each branch computes a
    small term. *)
Ltac run_body :=
  unfold loop_body, get_next, forward_skip, process_batch, report_failure,
    finish_batch, log_info;
  py_unfold; unfold py_zoom, queue_put, queue_get, rmtree; cbn.

(** Close a goal [run = outcome state] once the run has been computed:
    the appended log lines are reassociated.  The setters are left
    folded: unfolding them copies the state once per attribute. *)
Ltac finish_state := rewrite ?app_nil_r, <- ?app_assoc; reflexivity.

(** ** The loop body on the list queue *)

Section ListQueue.
Context `{Script}.
Implicit Types st : ProcessingThread WQ.

(** One pass of the body on a non-empty input queue is [item_spec] of its
    head, with the log lines of [item_log]: every branch of lines 42-76. *)
Lemma wq_loop_body_item st x xs c :
  downloaded st = mkWQ (x :: xs) c ->
  let lg := log st ++ item_log x (fs st) in
  match item_spec x (fs st) with
  | Forwarded o err fs1 =>
      loop_body st = Normal Continue
        (mkProcessingThread (mkWQ xs c) (q_put o (to_upload st))
           (error_queue st ++ option_list err) (done st) fs1 lg)
  | Escaped e fs1 =>
      loop_body st = Raised e
        (mkProcessingThread (mkWQ xs c) (to_upload st) (error_queue st)
           (done st) fs1 lg)
  | Hangs => exists st', loop_body st = Blocked st'
  end.
Proof.
  destruct st as [d u eq dn f lg]; simpl. intros ->.
  destruct x as [jb|]; [|run_body; finish_state].
  unfold item_spec, item_log, rmtree.
  destruct (script_run (resolve (path_of_str (tmp_name (tmp_dir jb)))) f) as [[] f1|e f1|f1] eqn:Hs.
  - destruct (f1 !! input_folder_path jb) as [[]|] eqn:Hl;
      run_body; rewrite Hs; cbn; rewrite Hl; cbn; finish_state.
  - destruct (catches_Exception e) eqn:Hc;
      run_body; rewrite Hs; cbn; rewrite Hc; cbn; finish_state.
  - run_body. rewrite Hs. by eexists.
Qed.
End ListQueue.

Section ListQueueRun.
Context `{Script}.
Implicit Types st : ProcessingThread WQ.

Lemma wq_test_continue st x xs c :
  downloaded st = mkWQ (x :: xs) c -> pt_step (AtTest, st) = Some (AtBody, st).
Proof. destruct st; simpl. by intros ->. Qed.

Lemma wq_test_not_done st c :
  downloaded st = mkWQ [] c -> done st = false ->
  pt_step (AtTest, st) = Some (AtBody, st).
Proof. destruct st; simpl. by intros -> ->. Qed.

Lemma wq_body_closed st :
  downloaded st = mkWQ [] true ->
  pt_step (AtBody, st) = Some (AtClose,
    mkProcessingThread (mkWQ [] true) (to_upload st) (error_queue st) true
      (fs st) (waiting_log st)).
Proof. destruct st; simpl. by intros ->. Qed.

Lemma wq_close st :
  pt_step (AtClose, st) = Some (Exited,
    mkProcessingThread (downloaded st) (q_close (to_upload st))
      (error_queue st) (done st) (fs st) (log st ++ [LogInfo "Processing thread done"])).
Proof. by destruct st. Qed.

(** The whole run on the list queue, by induction on the queued items. *)
Lemma wq_run_spec st xs k :
  downloaded st = mkWQ xs true -> done st = false ->
  let '(outs, errs, fs', s) := stage_spec xs (fs st) in
  let '(pc, st') := run_thread (2 * length xs + 3 + k) (AtTest, st) in
  wq_items (to_upload st') = wq_items (to_upload st) ++ outs /\
  error_queue st' = error_queue st ++ errs /\ fs st' = fs' /\
  log st' = log st ++ stage_log xs (fs st) /\
  match s with
  | Finished => pc = Exited /\ wq_closed (to_upload st') = true
  | Died e => pc = Crashed e /\ wq_closed (to_upload st') = wq_closed (to_upload st)
  | Hung => pc = AtBody
  end.
Proof.
  revert st. induction xs as [|x xs IH]; intros st Hd Hdone.
  - change (2 * length [] + 3 + k) with (S (S (S k))).
    rewrite (run_thread_step _ _ _ (wq_test_not_done st true Hd Hdone)),
      (run_thread_step _ _ _ (wq_body_closed st Hd)), (run_thread_step _ _ _ (wq_close _)),
      run_thread_stop by done.
    unfold waiting_log. simpl. by rewrite !app_nil_r, <- app_assoc.
  - replace (2 * length (x :: xs) + 3 + k) with (S (S (2 * length xs + 3 + k)))
      by (simpl; lia).
    rewrite (run_thread_step _ _ _ (wq_test_continue st x xs true Hd)).
    cbn [run_thread]. rewrite pt_step_body. cbn [stage_spec stage_log].
    pose proof (wq_loop_body_item st x xs true Hd) as Hb. cbv zeta in Hb.
    destruct (item_spec x (fs st)) as [o err fs1|e fs1|];
      [| |destruct Hb as [st' Hb]]; rewrite Hb; cbn [resume].
    + specialize (IH (mkProcessingThread (mkWQ xs true) (q_put o (to_upload st))
        (error_queue st ++ option_list err) (done st) fs1 (log st ++ item_log x (fs st)))
        eq_refl Hdone).
      cbn [fs] in IH.
      destruct (stage_spec xs fs1) as [[[os es] fs2] s].
      destruct (run_thread _ _) as [pc st2].
      destruct IH as (I1 & I2 & I3 & I4 & I5). cbn in I1, I2, I4.
      rewrite I1, I2, I4, <- !app_assoc. done.
    + rewrite run_thread_stop by done. simpl. by rewrite !app_nil_r.
    + simpl. by rewrite !app_nil_r.
Qed.
End ListQueueRun.

(** ** The loop body on any lawful queue *)

Section Items.
Context `{ClosableQueueLaws Q} `{Script}.
Implicit Types st : ProcessingThread Q.

Lemma loop_body_item st x xs :
  q_items (downloaded st) = x :: xs ->
  match item_spec x (fs st) with
  | Forwarded o err fs1 =>
      exists st', loop_body st = Normal Continue st' /\
        q_items (downloaded st') = xs /\
        q_items (to_upload st') = q_items (to_upload st) ++ [o] /\
        q_closed (to_upload st') = q_closed (to_upload st) /\
        error_queue st' = error_queue st ++ option_list err /\
        fs st' = fs1 /\ done st' = done st /\
        log st' = log st ++ item_log x (fs st) /\
        q_closed (downloaded st') = q_closed (downloaded st)
  | Escaped e fs1 =>
      exists st', loop_body st = Raised e st' /\
        q_items (downloaded st') = xs /\
        q_items (to_upload st') = q_items (to_upload st) /\
        q_closed (to_upload st') = q_closed (to_upload st) /\
        error_queue st' = error_queue st /\ fs st' = fs1 /\
        log st' = log st ++ item_log x (fs st) /\
        q_closed (downloaded st') = q_closed (downloaded st)
  | Hangs => exists st', loop_body st = Blocked st'
  end.
Proof.
  intros Hd. pose proof (sim_loop_body st) as E.
  pose proof (wq_loop_body_item (pt_abs st) x xs (q_closed (downloaded st))) as W.
  cbn [pt_abs downloaded fs log] in W. unfold wq_abs at 1 in W. rewrite Hd in W.
  specialize (W eq_refl). cbv zeta in W.
  destruct (item_spec x (fs st)); [| |destruct W as [? W]]; rewrite <- E in W;
    destruct (loop_body st) as [a st'|e' st'|st']; simplify_eq/=; eauto.
  - exists st'. unfold wq_abs in *. simplify_eq/=. naive_solver.
  - exists st'. unfold wq_abs in *. simplify_eq/=. naive_solver.
Qed.

(** An escaping exception ends [run]: the thread is [Crashed] for good
    in the state the body raised in. *)
Lemma run_after_raise st e st' n :
  loop_body st = Raised e st' -> run_thread (S n) (AtBody, st) = (Crashed e, st').
Proof.
  intros E. rewrite (run_thread_step _ _ (Crashed e, st')), run_thread_stop; [done..|].
  by rewrite pt_step_body, E.
Qed.

Lemma item_spec_not_hangs `{!ScriptTerminates} x fs0 : item_spec x fs0 <> Hangs.
Proof.
  destruct x as [jb|]; simpl; [|done].
  destruct (script_run _ fs0) as [[] fs1|e fs1|s] eqn:E.
  - unfold rmtree. by destruct (fs1 !! _) as [[]|].
  - by destruct (catches_Exception e).
  - by apply script_terminates in E.
Qed.

Lemma stage_spec_not_hung `{!ScriptTerminates} xs fs0 : (stage_spec xs fs0).2 <> Hung.
Proof.
  revert fs0. induction xs as [|x xs IH]; intros fs0; simpl; [done|].
  pose proof (item_spec_not_hangs x fs0).
  destruct (item_spec x fs0) as [o err fs1|e fs1|]; [|done|done].
  specialize (IH fs1). destruct (stage_spec xs fs1) as [[[os es] fs2] st]. done.
Qed.
Lemma run_stage (down up : Q Item) errq fs0 k :
  q_closed down = true ->
  let xs := q_items down in
  let '(outs, errs, fs', s) := stage_spec xs fs0 in
  let '(pc, st') := run_thread (2 * length xs + 3 + k)
                      (AtTest, pt_init down up errq fs0) in
  q_items (to_upload st') = q_items up ++ outs /\
  error_queue st' = errq ++ errs /\ fs st' = fs' /\ log st' = stage_log xs fs0 /\
  match s with
  | Finished => pc = Exited /\ q_closed (to_upload st') = true
  | Died e => pc = Crashed e /\ q_closed (to_upload st') = q_closed up
  | Hung => pc = AtBody
  end.
Proof.
  intros Hc xs.
  pose proof (wq_run_spec (pt_abs (pt_init down up errq fs0)) xs k) as W.
  rewrite sim_run_thread_at in W. cbn [fs log pt_abs pt_init app] in W.
  destruct (stage_spec xs fs0) as [[[outs errs] fs'] s].
  destruct (run_thread _ _) as [pc st']. apply W; [|done].
  unfold pt_abs, pt_init, wq_abs, xs. simpl. by rewrite Hc.
Qed.

End Items.

(** ** The stage, on any lawful queue *)

Section Stage.
Context `{ClosableQueueLaws Q} `{Script}.
Implicit Types st : ProcessingThread Q.

(** C1: [run] implements the stage's specification.  Started by
    [__init__] on an input queue that is closed and holds [xs], [run]
    stops within [2 * length xs + 3] steps (any extra fuel [k] changes
    nothing), and: the items it put on [to_upload] are those of
    [stage_spec xs], one per input item and in input order; the records
    it put on [error_queue] are the failures of [stage_spec]; the file
    system is the one [stage_spec] leaves; the log is [stage_log xs]
    line for line; and if every item was handled,
    [run] returned with [to_upload] closed, while if an exception escaped
    it crashed with [to_upload] as open as it was, and if the script hung
    it is still in the loop body. *)
Theorem run_refines_stage_spec (down up : Q Item) errq fs0 k :
  q_closed down = true ->
  let xs := q_items down in
  let '(outs, errs, fs', s) := stage_spec xs fs0 in
  let '(pc, st') := run_thread (2 * length xs + 3 + k)
                      (AtTest, pt_init down up errq fs0) in
  q_items (to_upload st') = q_items up ++ outs /\
  error_queue st' = errq ++ errs /\ fs st' = fs' /\ log st' = stage_log xs fs0 /\
  match s with
  | Finished => pc = Exited /\ q_closed (to_upload st') = true
  | Died e => pc = Crashed e /\ q_closed (to_upload st') = q_closed up
  | Hung => pc = AtBody
  end.
Proof. apply run_stage. Qed.

(** C2: one pass of the loop body (lines 42-76) on an input queue whose
    head is [x] is the specification [item_spec x] of that item: the
    head is taken off [downloaded]; if the item is forwarded, exactly
    that item is appended to [to_upload], the failure (if any) to
    [error_queue], and the file system is the specification's; if an
    exception escapes, neither queue nor [error_queue] has changed; in
    both cases the logger received the lines of [item_log x]; if the
    script hangs, the body blocks. *)
Theorem loop_body_refines_item_spec st x xs :
  q_items (downloaded st) = x :: xs ->
  match item_spec x (fs st) with
  | Forwarded o err fs1 =>
      exists st', loop_body st = Normal Continue st' /\
        q_items (downloaded st') = xs /\
        q_items (to_upload st') = q_items (to_upload st) ++ [o] /\
        q_closed (to_upload st') = q_closed (to_upload st) /\
        error_queue st' = error_queue st ++ option_list err /\
        fs st' = fs1 /\ done st' = done st /\
        log st' = log st ++ item_log x (fs st) /\
        q_closed (downloaded st') = q_closed (downloaded st)
  | Escaped e fs1 =>
      exists st', loop_body st = Raised e st' /\
        q_items (downloaded st') = xs /\
        q_items (to_upload st') = q_items (to_upload st) /\
        q_closed (to_upload st') = q_closed (to_upload st) /\
        error_queue st' = error_queue st /\ fs st' = fs1 /\
        log st' = log st ++ item_log x (fs st) /\
        q_closed (downloaded st') = q_closed (downloaded st)
  | Hangs => exists st', loop_body st = Blocked st'
  end.
Proof. apply loop_body_item. Qed.

(** C3: a skip marker ([None]) taken from [downloaded] is forwarded to
    [to_upload] without running the script: the body ends in the same
    state whatever [Script] the thread holds, with [None] appended to
    [to_upload], nothing reported and the file system untouched. *)
Theorem skip_forwarded_without_script st xs :
  q_items (downloaded st) = None :: xs ->
  exists st', (forall script : Script, @loop_body Q _ script st = Normal Continue st') /\
    q_items (to_upload st') = q_items (to_upload st) ++ [None] /\
    q_closed (to_upload st') = q_closed (to_upload st) /\
    error_queue st' = error_queue st /\ fs st' = fs st.
Proof.
  intros E. destruct (get_next_cons st None xs E) as (q' & G & _ & _).
  eexists. split; [intros script; rewrite loop_body_unfold, G; reflexivity|].
  simpl. by rewrite q_put_items, q_put_closed.
Qed.

(** C4: when the script raises an [Exception], the body reports exactly
    one [FailedJobBatch] for the batch, with the exception's [repr] and
    [PROCESSING_FAILED], forwards a skip marker instead of the batch,
    and (for a script confined to its working directory) leaves the
    batch's input folder as it was. *)
Theorem failure_reported_input_kept `{!ScriptConfined} st jb xs e fs1 :
  q_items (downloaded st) = Some jb :: xs ->
  script_run (resolve (path_of_str (tmp_name (tmp_dir jb)))) (fs st) = Raised e fs1 ->
  catches_Exception e = true ->
  ~ under (resolve (path_of_str (tmp_name (tmp_dir jb)))) (input_folder_path jb) ->
  exists st', loop_body st = Normal Continue st' /\
    q_items (to_upload st') = q_items (to_upload st) ++ [None] /\
    error_queue st' =
      error_queue st ++ [mkFailedJobBatch jb (py_repr e) PROCESSING_FAILED] /\
    fs st' !! input_folder_path jb = fs st !! input_folder_path jb.
Proof.
  intros Hd Hs Hc Hu. pose proof (loop_body_item st _ _ Hd) as B.
  simpl in B. rewrite Hs, Hc in B. destruct B as (st' & B & _ & B2 & _ & B3 & B4 & _).
  exists st'. split_and!; [done..|]. rewrite B4.
  pose proof (script_confined _ (fs st) _ Hu) as C. by rewrite Hs in C.
Qed.

(** C5: when the script returns and the input folder is a directory,
    the body deletes exactly the tree of the input folder (line 73),
    forwards the batch itself and reports nothing. *)
Theorem success_purges_input_forwards st jb xs fs1 :
  q_items (downloaded st) = Some jb :: xs ->
  script_run (resolve (path_of_str (tmp_name (tmp_dir jb)))) (fs st) = Normal tt fs1 ->
  fs1 !! input_folder_path jb = Some Dir ->
  exists st', loop_body st = Normal Continue st' /\
    q_items (to_upload st') = q_items (to_upload st) ++ [Some jb] /\
    error_queue st' = error_queue st /\
    forall p, fs st' !! p =
      if decide (under (input_folder_path jb) p) then None else fs1 !! p.
Proof.
  intros Hd Hs Hdir. pose proof (loop_body_item st _ _ Hd) as B.
  simpl in B. rewrite Hs in B. unfold rmtree in B. rewrite Hdir in B.
  destruct B as (st' & B & _ & B2 & _ & B3 & B4 & _).
  exists st'. rewrite app_nil_r in B3. split_and!; [done..|].
  intros p. by rewrite B4, lookup_remove_tree.
Qed.

(** C6: if the input folder is gone when the script has returned,
    [rmtree] raises [FileNotFoundError], which is not caught: [run]
    crashes, and [to_upload] is never closed (it stays as open as it
    was), so the upload thread waits forever. *)
Theorem purge_failure_leaves_output_open st jb xs fs1 n :
  q_items (downloaded st) = Some jb :: xs ->
  script_run (resolve (path_of_str (tmp_name (tmp_dir jb)))) (fs st) = Normal tt fs1 ->
  fs1 !! input_folder_path jb = None ->
  let '(pc, st') := run_thread (S n) (AtBody, st) in
  pc = Crashed (FileNotFoundError (input_folder_path jb)) /\
  q_items (to_upload st') = q_items (to_upload st) /\
  q_closed (to_upload st') = q_closed (to_upload st).
Proof.
  intros Hd Hs Hn. pose proof (loop_body_item st _ _ Hd) as B.
  simpl in B. rewrite Hs in B. unfold rmtree in B. rewrite Hn in B.
  destruct B as (st' & B & _ & B2 & B3 & _).
  by rewrite (run_after_raise _ _ _ _ B).
Qed.

(** C7: an exception of the script that is not an [Exception] (a
    [BaseException] such as [KeyboardInterrupt] or [SystemExit]) is not
    caught by [except Exception]: no failure is reported, no skip marker
    is forwarded, [run] crashes and [to_upload] is left as it was. *)
Theorem base_exception_escapes st jb xs e fs1 n :
  q_items (downloaded st) = Some jb :: xs ->
  script_run (resolve (path_of_str (tmp_name (tmp_dir jb)))) (fs st) = Raised e fs1 ->
  catches_Exception e = false ->
  let '(pc, st') := run_thread (S n) (AtBody, st) in
  pc = Crashed e /\ error_queue st' = error_queue st /\
  q_items (to_upload st') = q_items (to_upload st) /\
  q_closed (to_upload st') = q_closed (to_upload st).
Proof.
  intros Hd Hs Hc. pose proof (loop_body_item st _ _ Hd) as B.
  simpl in B. rewrite Hs, Hc in B.
  destruct B as (st' & B & _ & B2 & B3 & B4 & _).
  by rewrite (run_after_raise _ _ _ _ B).
Qed.

(** C8: termination.  With a script that never hangs, [run] started by
    [__init__] on a closed input queue of [n] items has stopped after
    [2 * n + 3] steps, and it stopped because it returned or crashed,
    not because it waits. *)
Theorem run_terminates `{!ScriptTerminates} (down up : Q Item) errq fs0 :
  q_closed down = true ->
  let '(pc, st') := run_thread (2 * length (q_items down) + 3)
                      (AtTest, pt_init down up errq fs0) in
  pt_step (pc, st') = None /\ (pc = Exited \/ exists e, pc = Crashed e).
Proof.
  intros Hc. pose proof (run_stage down up errq fs0 0 Hc) as R.
  pose proof (stage_spec_not_hung (q_items down) fs0) as NH.
  cbv zeta in R. rewrite Nat.add_0_r in R.
  destruct (stage_spec _ fs0) as [[[outs errs] fs'] [|e|]]; [| |done];
    destruct (run_thread _ _) as [pc st'];
    destruct R as (_ & _ & _ & _ & -> & _); eauto.
Qed.

(** C9: on a closed and drained input queue the body's [get()] raises
    [ClosedException]: the thread sets [done], leaves the loop by
    [break] and closes [to_upload] (lines 45-47, 78), and then has
    returned; nothing else changes. *)
Theorem closed_input_exits st n :
  q_items (downloaded st) = [] -> q_closed (downloaded st) = true ->
  let '(pc, st') := run_thread (2 + n) (AtBody, st) in
  pc = Exited /\ done st' = true /\ q_closed (to_upload st') = true /\
  q_items (to_upload st') = q_items (to_upload st) /\
  error_queue st' = error_queue st /\ fs st' = fs st.
Proof.
  intros E C. change (2 + n) with (S (S n)).
  rewrite (run_thread_step _ _ (AtClose, mkProcessingThread (downloaded st)
    (to_upload st) (error_queue st) true (fs st) (waiting_log st))).
  2: { by rewrite pt_step_body, loop_body_unfold, get_next_closed. }
  rewrite (run_thread_step _ _ (Exited, mkProcessingThread (downloaded st)
    (q_close (to_upload st)) (error_queue st) true (fs st)
    (waiting_log st ++ [LogInfo "Processing thread done"]))), run_thread_stop
    by done.
  simpl. by rewrite q_close_closed, q_close_items.
Qed.

(** C10: the only place the body waits is the [get()] on an empty, open
    input queue: with a script that never hangs, the body blocks exactly
    when [downloaded] is empty and not closed. *)
Theorem body_blocks_iff_input_open_empty `{!ScriptTerminates} st :
  (exists s, loop_body st = Blocked s) <->
  q_items (downloaded st) = [] /\ q_closed (downloaded st) = false.
Proof.
  destruct (q_items (downloaded st)) as [|x xs] eqn:E.
  - destruct (q_closed (downloaded st)) eqn:C.
    + rewrite loop_body_unfold, get_next_closed by done. naive_solver.
    + destruct (get_next_open st E C) as [s Hs].
      rewrite loop_body_unfold, Hs. naive_solver.
  - pose proof (loop_body_item st x xs E) as B.
    pose proof (item_spec_not_hangs x (fs st)).
    destruct (item_spec x (fs st)); [| |done];
      destruct B as (st' & -> & _); naive_solver.
Qed.

End Stage.

(** ** Witnesses on concrete inputs *)

#[local] Existing Instance demo_script.

Lemma run_refines_stage_spec_witness :
  q_closed demo_down = true /\
  let xs := q_items demo_down in
  let '(outs, errs, fs', s) := stage_spec xs demo_fs in
  let '(pc, st') := run_thread (2 * length xs + 3 + 0)
                      (AtTest, pt_init demo_down demo_up [] demo_fs) in
  q_items (to_upload st') = q_items demo_up ++ outs /\
  error_queue st' = [] ++ errs /\ fs st' = fs' /\ log st' = stage_log xs demo_fs /\
  match s with
  | Finished => pc = Exited /\ q_closed (to_upload st') = true
  | Died e => pc = Crashed e /\ q_closed (to_upload st') = q_closed demo_up
  | Hung => pc = AtBody
  end.
Proof. split; [reflexivity|]. apply run_refines_stage_spec. reflexivity. Defined.

Lemma loop_body_refines_item_spec_witness :
  let st := pt_init (mkWQ [Some (demo_batch "b2"); Some (demo_batch "b3")] true)
              demo_up [] demo_fs in
  q_items (downloaded st) = Some (demo_batch "b2") :: [Some (demo_batch "b3")] /\
  match item_spec (Some (demo_batch "b2")) (fs st) with
  | Forwarded o err fs1 =>
      exists st', loop_body st = Normal Continue st' /\
        q_items (downloaded st') = [Some (demo_batch "b3")] /\
        q_items (to_upload st') = q_items (to_upload st) ++ [o] /\
        q_closed (to_upload st') = q_closed (to_upload st) /\
        error_queue st' = error_queue st ++ option_list err /\
        fs st' = fs1 /\ done st' = done st /\
        log st' = log st ++ item_log (Some (demo_batch "b2")) (fs st) /\
        q_closed (downloaded st') = q_closed (downloaded st)
  | Escaped e fs1 =>
      exists st', loop_body st = Raised e st' /\
        q_items (downloaded st') = [Some (demo_batch "b3")] /\
        q_items (to_upload st') = q_items (to_upload st) /\
        q_closed (to_upload st') = q_closed (to_upload st) /\
        error_queue st' = error_queue st /\ fs st' = fs1 /\
        log st' = log st ++ item_log (Some (demo_batch "b2")) (fs st) /\
        q_closed (downloaded st') = q_closed (downloaded st)
  | Hangs => exists st', loop_body st = Blocked st'
  end.
Proof. split; [reflexivity|]. apply loop_body_refines_item_spec. reflexivity. Defined.

#[local] Instance demo_script_confined : ScriptConfined.
Proof. intros wd fs0 p _. unfold script_run, demo_script. by destruct (decide _). Qed.

#[local] Instance demo_script_terminates : ScriptTerminates.
Proof. intros wd fs0 s. unfold script_run, demo_script. by destruct (decide _). Qed.

Lemma skip_forwarded_without_script_witness :
  let st := demo_thread [None; Some (demo_batch "b1")] in
  q_items (downloaded st) = None :: [Some (demo_batch "b1")] /\
  exists st', (forall script : Script, @loop_body WQ _ script st = Normal Continue st') /\
    q_items (to_upload st') = q_items (to_upload st) ++ [None] /\
    q_closed (to_upload st') = q_closed (to_upload st) /\
    error_queue st' = error_queue st /\ fs st' = fs st.
Proof.
  split; [reflexivity|].
  apply (skip_forwarded_without_script _ [Some (demo_batch "b1")]); reflexivity.
Defined.

Lemma failure_reported_input_kept_witness :
  let st := demo_thread [Some (demo_batch "b2")] in
  let jb := demo_batch "b2" in
  q_items (downloaded st) = Some jb :: [] /\
  script_run (resolve (path_of_str (tmp_name (tmp_dir jb)))) (fs st) = Raised demo_error demo_fs /\
  catches_Exception demo_error = true /\
  ~ under (resolve (path_of_str (tmp_name (tmp_dir jb)))) (input_folder_path jb) /\
  exists st', loop_body st = Normal Continue st' /\
    q_items (to_upload st') = q_items (to_upload st) ++ [None] /\
    error_queue st' =
      error_queue st ++ [mkFailedJobBatch jb (py_repr demo_error) PROCESSING_FAILED] /\
    fs st' !! input_folder_path jb = fs st !! input_folder_path jb.
Proof.
  assert (U : ~ under ["tmp"; "b2"] ["in"; "b2"]) by (intros [k Hk]; discriminate Hk).
  split_and!; [reflexivity | reflexivity | reflexivity | exact U |].
  apply (failure_reported_input_kept _ _ [] _ demo_fs);
    [reflexivity | reflexivity | reflexivity | exact U].
Defined.

Lemma success_purges_input_forwards_witness :
  let st := demo_thread [Some (demo_batch "b3")] in
  let jb := demo_batch "b3" in
  q_items (downloaded st) = Some jb :: [] /\
  script_run (resolve (path_of_str (tmp_name (tmp_dir jb)))) (fs st) = Normal tt demo_fs /\
  demo_fs !! input_folder_path jb = Some Dir /\
  exists st', loop_body st = Normal Continue st' /\
    q_items (to_upload st') = q_items (to_upload st) ++ [Some jb] /\
    error_queue st' = error_queue st /\
    forall p, fs st' !! p =
      if decide (under (input_folder_path jb) p) then None else demo_fs !! p.
Proof.
  split_and!; [reflexivity | reflexivity | vm_compute; reflexivity |].
  apply (success_purges_input_forwards _ _ [] demo_fs);
    [reflexivity | reflexivity | vm_compute; reflexivity].
Defined.

Lemma purge_failure_leaves_output_open_witness :
  let st := demo_thread [Some (demo_batch "b4")] in
  let jb := demo_batch "b4" in
  q_items (downloaded st) = Some jb :: [] /\
  script_run (resolve (path_of_str (tmp_name (tmp_dir jb)))) (fs st) = Normal tt demo_fs /\
  demo_fs !! input_folder_path jb = None /\
  let '(pc, st') := run_thread 1 (AtBody, st) in
  pc = Crashed (FileNotFoundError (input_folder_path jb)) /\
  q_items (to_upload st') = q_items (to_upload st) /\
  q_closed (to_upload st') = q_closed (to_upload st).
Proof.
  split_and!; [reflexivity | reflexivity | vm_compute; reflexivity |].
  apply (purge_failure_leaves_output_open (demo_thread [Some (demo_batch "b4")])
    (demo_batch "b4") [] demo_fs 0);
    [reflexivity | reflexivity | vm_compute; reflexivity].
Defined.

Lemma base_exception_escapes_witness :
  let st := demo_thread [Some (demo_batch "b1")] in
  let jb := demo_batch "b1" in
  q_items (downloaded st) = Some jb :: [] /\
  @script_run demo_interrupt_script (resolve (path_of_str (tmp_name (tmp_dir jb)))) (fs st) =
    Raised demo_interrupt demo_fs /\
  catches_Exception demo_interrupt = false /\
  let '(pc, st') := @run_thread WQ _ demo_interrupt_script 1 (AtBody, st) in
  pc = Crashed demo_interrupt /\ error_queue st' = error_queue st /\
  q_items (to_upload st') = q_items (to_upload st) /\
  q_closed (to_upload st') = q_closed (to_upload st).
Proof.
  split_and!; [reflexivity | reflexivity | reflexivity |].
  apply (@base_exception_escapes WQ _ _ demo_interrupt_script
    (demo_thread [Some (demo_batch "b1")]) (demo_batch "b1") [] demo_interrupt demo_fs 0);
    reflexivity.
Defined.

Lemma run_terminates_witness :
  q_closed demo_down = true /\
  let '(pc, st') := run_thread (2 * length (q_items demo_down) + 3)
                      (AtTest, pt_init demo_down demo_up [] demo_fs) in
  pt_step (pc, st') = None /\ (pc = Exited \/ exists e, pc = Crashed e).
Proof. split; [reflexivity | apply run_terminates; reflexivity]. Defined.

Lemma closed_input_exits_witness :
  let st := demo_thread [] in
  q_items (downloaded st) = [] /\ q_closed (downloaded st) = true /\
  let '(pc, st') := run_thread (2 + 0) (AtBody, st) in
  pc = Exited /\ done st' = true /\ q_closed (to_upload st') = true /\
  q_items (to_upload st') = q_items (to_upload st) /\
  error_queue st' = error_queue st /\ fs st' = fs st.
Proof. split_and!; [reflexivity | reflexivity | apply closed_input_exits; reflexivity]. Defined.

Lemma body_blocks_iff_input_open_empty_witness :
  let st := pt_init (mkWQ [] false) demo_up [] demo_fs in
  (exists s, loop_body st = Blocked s) <->
  q_items (downloaded st) = [] /\ q_closed (downloaded st) = false.
Proof. apply body_blocks_iff_input_open_empty. Defined.
