(* ===== verification/ThreadSteps.v ===== *)
(** * The steps of [run], one at a time

    [step_case] lists the shapes a step of [pt_step] can take (the
    [while] test, the [break] on [ClosedException], a handled item, an
    escaping exception, the close after the loop); [pt_step_cases] is its
    inversion lemma, and every fact below is proved from it by case
    analysis on the shape:
    - what a step appends to [error_queue] and to the log
      ([pt_step_failures]): the two grow together;
    - the measure [steps_left] (two steps per queued item, three to
      leave the loop), which a step that does not crash lowers by one;
    - progress: with a script that never hangs, [run] waits only in the
      [get()] on an empty, open input queue.
    The theorems: the step bound of C1 is exact, every failure is logged,
    and every record on the error queue is one the handler built. *)

From stdpp Require Import base list gmap strings.
From S2P Require Import Prelude Filesystem WrappedQueue Util ProcessingThread.

(** The failure records among the log entries, in order. *)
Definition log_errors (l : list LogEntry) : list FailedJobBatch :=
  omap (fun en => match en with LogError f => Some f | LogInfo _ => None end) l.

(** A record as the [except Exception] handler builds it (lines 61-63):
    kind [PROCESSING_FAILED], message the [repr] of an [Exception]. *)
Definition failure_record_ok (f : FailedJobBatch) : Prop :=
  error_type f = PROCESSING_FAILED /\
  exists e, catches_Exception e = true /\ error_message f = py_repr e.

(** [run] has returned or crashed. *)
Definition stopped (pc : PC) : bool :=
  match pc with Exited | Crashed _ => true | _ => false end.

(** The steps [run] still has to take on an input queue nobody puts
    to: two per queued item and three to leave the loop. *)
Definition steps_left `{ClosableQueue Q} (c : PC * ProcessingThread Q) : nat :=
  let n := 2 * length (q_items (downloaded c.2)) in
  match c.1 with
  | AtTest => n + 3
  | AtBody => n + 2
  | AtClose => 1
  | Exited | Crashed _ => 0
  end.

(** Inside the loop the [done] flag is still unset. *)
Definition loop_not_done {Q} (c : PC * ProcessingThread Q) : Prop :=
  c.1 = AtTest \/ c.1 = AtBody -> done c.2 = false.

Section Shapes.
Context `{ClosableQueue Q} `{Script}.
Implicit Types st : ProcessingThread Q.

(** The shapes of one step of [run]. *)
Inductive step_case : PC -> ProcessingThread Q -> PC -> ProcessingThread Q -> Prop :=
| case_test st :
    step_case AtTest st
      (if (if q_empty (downloaded st) then negb (done st) else true) then AtBody else AtClose)
      (set_downloaded (downloaded st) st)
| case_closed st :
    q_items (downloaded st) = [] -> q_closed (downloaded st) = true ->
    step_case AtBody st AtClose
      (mkProcessingThread (downloaded st) (to_upload st) (error_queue st) true
         (fs st) (waiting_log st))
| case_item st x xs o err fs1 st' :
    q_items (downloaded st) = x :: xs -> item_spec x (fs st) = Forwarded o err fs1 ->
    q_items (downloaded st') = xs ->
    q_closed (downloaded st') = q_closed (downloaded st) ->
    q_items (to_upload st') = q_items (to_upload st) ++ [o] ->
    q_closed (to_upload st') = q_closed (to_upload st) ->
    error_queue st' = error_queue st ++ option_list err ->
    fs st' = fs1 -> done st' = done st ->
    log st' = log st ++ item_log x (fs st) ->
    step_case AtBody st AtTest st'
| case_escape st x xs e fs1 st' :
    q_items (downloaded st) = x :: xs -> item_spec x (fs st) = Escaped e fs1 ->
    q_items (downloaded st') = xs ->
    q_closed (downloaded st') = q_closed (downloaded st) ->
    q_items (to_upload st') = q_items (to_upload st) ->
    q_closed (to_upload st') = q_closed (to_upload st) ->
    error_queue st' = error_queue st -> fs st' = fs1 ->
    log st' = log st ++ item_log x (fs st) ->
    step_case AtBody st (Crashed e) st'
| case_close st :
    step_case AtClose st Exited
      (set_log (log st ++ [LogInfo "Processing thread done"])
         (set_to_upload (q_close (to_upload st)) st)).
End Shapes.

(** ** Lemmas *)

Lemma log_errors_app l1 l2 : log_errors (l1 ++ l2) = log_errors l1 ++ log_errors l2.
Proof. apply omap_app. Qed.

Lemma log_errors_info l m : log_errors (l ++ [LogInfo m]) = log_errors l.
Proof. by rewrite log_errors_app, app_nil_r. Qed.

Section Items.
Context `{Script}.

Lemma item_spec_failure_ok x fs0 o f fs1 :
  item_spec x fs0 = Forwarded o (Some f) fs1 -> failure_record_ok f.
Proof.
  destruct x as [jb|]; simpl; [|done].
  destruct (script_run _ fs0) as [[] ?|e ?|?];
    [unfold rmtree; by destruct (_ !! _) as [[]|]| |done].
  destruct (catches_Exception e) eqn:C; intros; simplify_eq/=. split; [done|]. by exists e.
Qed.

(** The failure records [item_log] writes are the item's failure. *)
Lemma item_log_errors x fs0 :
  match item_spec x fs0 with
  | Forwarded _ err _ => log_errors (item_log x fs0) = option_list err
  | Escaped _ _ => log_errors (item_log x fs0) = []
  | Hangs => True
  end.
Proof.
  unfold item_spec, item_log. destruct x as [jb|]; [|done].
  destruct (script_run _ fs0) as [[] ?|e ?|?];
    [unfold rmtree; by destruct (_ !! _) as [[]|]| |done].
  by destruct (catches_Exception e).
Qed.
End Items.

Section Steps.
Context `{ClosableQueueLaws Q} `{Script}.
Implicit Types st : ProcessingThread Q.

(** Inversion of [pt_step]: every step has one of the shapes. *)
Lemma pt_step_cases pc st pc' st' :
  pt_step (pc, st) = Some (pc', st') -> step_case pc st pc' st'.
Proof.
  destruct pc as [| | | |e]; [| | |done|done]; intros Hp.
  - rewrite pt_step_test, loop_test_eq in Hp. injection Hp as <- <-. constructor.
  - rewrite pt_step_body in Hp. destruct (q_items (downloaded st)) as [|x xs] eqn:E.
    + rewrite loop_body_unfold in Hp. destruct (q_closed (downloaded st)) eqn:Cl.
      * rewrite get_next_closed in Hp by done. injection Hp as <- <-. by constructor.
      * destruct (get_next_open st E Cl) as [s0 G]. by rewrite G in Hp.
    + pose proof (loop_body_item st x xs E) as B.
      destruct (item_spec x (fs st)) as [o err fs1|e fs1|] eqn:I.
      * destruct B as (st1 & B & B1 & B2 & B3 & B4 & B5 & B6 & B7 & B8).
        rewrite B in Hp. injection Hp as <- <-. by eapply case_item.
      * destruct B as (st1 & B & B1 & B2 & B3 & B4 & B5 & B6 & B7).
        rewrite B in Hp. injection Hp as <- <-. by eapply case_escape.
      * destruct B as (st1 & B). by rewrite B in Hp.
  - rewrite pt_step_close, finish_run_eq in Hp. injection Hp as <- <-. constructor.
Qed.

(** One step of [run] appends to [error_queue] only records built by
    the handler, and logs each of them, in the same order. *)
Lemma pt_step_failures pc st pc' st' :
  pt_step (pc, st) = Some (pc', st') ->
  exists new, error_queue st' = error_queue st ++ new /\
    log_errors (log st') = log_errors (log st) ++ new /\ Forall failure_record_ok new.
Proof.
  intros Hp.
  destruct (pt_step_cases _ _ _ _ Hp) as [st|st|st x xs o err fs1 st' _ I _ _ _ _ Q1 _ _ L
    |st x xs e fs1 st' _ I _ _ _ _ Q1 _ L|st].
  - exists []. by rewrite !app_nil_r.
  - exists []. unfold waiting_log. simpl. by rewrite log_errors_info, !app_nil_r.
  - pose proof (item_log_errors x (fs st)) as LE. rewrite I in LE.
    exists (option_list err). rewrite Q1, L, log_errors_app, LE. split_and!; [done..|].
    destruct err as [f|]; constructor; [|done]. by eapply item_spec_failure_ok.
  - pose proof (item_log_errors x (fs st)) as LE. rewrite I in LE.
    exists []. by rewrite Q1, L, log_errors_app, LE, !app_nil_r.
  - exists []. simpl. by rewrite log_errors_info, !app_nil_r.
Qed.

Lemma run_thread_failures n c :
  let c' := run_thread n c in
  exists new, error_queue c'.2 = error_queue c.2 ++ new /\
    log_errors (log c'.2) = log_errors (log c.2) ++ new /\ Forall failure_record_ok new.
Proof.
  revert c. induction n as [|n IH]; intros c; simpl.
  - exists []. by rewrite !app_nil_r.
  - destruct (pt_step c) as [[pc' st']|] eqn:P; [|exists []; by rewrite !app_nil_r].
    destruct c as [pc st].
    destruct (pt_step_failures _ _ _ _ P) as (n1 & E1 & L1 & F1).
    destruct (IH (pc', st')) as (n2 & E2 & L2 & F2). simpl in *.
    exists (n1 ++ n2). rewrite E2, L2, E1, L1, !app_assoc.
    split_and!; [done|done|by apply Forall_app].
Qed.

(** A step never changes whether [downloaded] is closed: only the
    download thread closes it. *)
Lemma pt_step_keeps_closed pc st pc' st' :
  pt_step (pc, st) = Some (pc', st') ->
  q_closed (downloaded st') = q_closed (downloaded st).
Proof. intros Hp. by destruct (pt_step_cases _ _ _ _ Hp). Qed.

(** On an input queue nobody puts to, each step of [run] that does not
    crash takes one of the [steps_left], and the loop keeps [done] unset. *)
Lemma pt_step_steps_left c c' :
  loop_not_done c -> pt_step c = Some c' ->
  loop_not_done c' /\ (steps_left c' + 1 = steps_left c \/ exists e, c'.1 = Crashed e).
Proof.
  destruct c as [pc st], c' as [pc' st']. intros Hd Hp.
  unfold loop_not_done, steps_left in *. cbn [fst snd] in *.
  destruct (pt_step_cases _ _ _ _ Hp) as [st|st E _|st x xs o err fs1 st' E _ D1 _ _ _ _ _ Dn _
    |st x xs e fs1 st' _ _ _ _ _ _ _ _ _|st]; cbn [fst snd] in *.
  - rewrite (Hd (or_introl eq_refl)). destruct (q_empty _); simpl; split; auto; lia.
  - split; [by intros [?|?]|]. left. rewrite E. simpl. lia.
  - rewrite Dn, D1, E. split; [auto|left; simpl; lia].
  - split; [by intros [?|?]|]. right. by eexists.
  - split; [by intros [?|?]|]. by left.
Qed.

(** A run that has returned took at least [steps_left] steps. *)
Lemma run_thread_exited_steps n c :
  loop_not_done c -> (run_thread n c).1 = Exited -> steps_left c <= n.
Proof.
  revert c. induction n as [|n IH]; intros c Hd Hx.
  - destruct c as [pc st]. simpl in Hx. subst pc. unfold steps_left. simpl. lia.
  - cbn [run_thread] in Hx. destruct (pt_step c) as [c'|] eqn:P.
    + destruct (pt_step_steps_left c c' Hd P) as [Hd' [Hs|[e He]]].
      * specialize (IH c' Hd' Hx). lia.
      * destruct c' as [pc' st']. simpl in He. subst pc'.
        by rewrite run_thread_stop in Hx.
    + destruct c as [pc st]. simpl in Hx. subst pc. unfold steps_left. simpl. lia.
Qed.

(** Progress: with a script that never hangs, a thread that has not
    stopped can step, unless it is in the body with an empty, open
    input queue. *)
Lemma pt_step_progress `{!ScriptTerminates} c :
  stopped c.1 = false ->
  (c.1 = AtBody -> q_items (downloaded c.2) <> [] \/ q_closed (downloaded c.2) = true) ->
  is_Some (pt_step c).
Proof.
  destruct c as [[| | | |e] st]; cbn [fst snd stopped]; intros Hs Hb; [| | |done|done].
  - rewrite pt_step_test, loop_test_eq. by eexists.
  - rewrite pt_step_body. destruct (q_items (downloaded st)) as [|x xs] eqn:E.
    + destruct (Hb eq_refl) as [?|Cl]; [done|].
      rewrite loop_body_unfold, get_next_closed by done. by eexists.
    + pose proof (loop_body_item st x xs E) as B. pose proof (item_spec_not_hangs x (fs st)).
      destruct (item_spec x (fs st)); [| |done]; destruct B as (st1 & -> & _); by eexists.
  - rewrite pt_step_close, finish_run_eq. by eexists.
Qed.

(** On a closed input queue and with a script that never hangs, [run]
    has stopped after [steps_left] steps. *)
Lemma run_thread_finishes `{!ScriptTerminates} c :
  q_closed (downloaded c.2) = true -> loop_not_done c ->
  stopped (run_thread (steps_left c) c).1 = true.
Proof.
  remember (steps_left c) as n eqn:En. revert c En.
  induction n as [|n IH]; intros c En Cl Hd.
  - destruct c as [[| | | |e] st]; unfold steps_left in En; simpl in En; try lia; done.
  - assert (stopped c.1 = false) as Hs.
    { destruct c as [[| | | |e] st]; unfold steps_left in En; simpl in En; try lia; done. }
    destruct (pt_step_progress c Hs (fun _ => or_intror Cl)) as [c' P].
    rewrite (run_thread_step _ _ _ P).
    destruct (pt_step_steps_left c c' Hd P) as [Hd' [Hn|[e He]]].
    + destruct c as [pc st], c' as [pc' st'].
      apply IH; [simpl in *; lia| |done]. simpl. by rewrite (pt_step_keeps_closed _ _ _ _ P).
    + rewrite run_thread_stop; [by rewrite He|]. destruct c' as [pc' st']. simpl in He. by subst.
Qed.
End Steps.

(** ** The theorems *)

Section Claims.
Context `{ClosableQueueLaws Q} `{Script}.

(** C16: the step bound of C1 is exact: on a closed input queue that the
    stage handles without an exception escaping, [run] has returned after
    [m] steps exactly when [m] is at least [steps_left] of its start,
    [2 * length (q_items down) + 3]; it never returns earlier. *)
Theorem run_exits_after_exactly (down up : Q Item) errq fs0 m :
  q_closed down = true -> (stage_spec (q_items down) fs0).2 = Finished ->
  (run_thread m (AtTest, pt_init down up errq fs0)).1 = Exited <->
  steps_left (AtTest, pt_init down up errq fs0) <= m.
Proof.
  intros Hc Hf. split.
  - apply run_thread_exited_steps. by intros _.
  - unfold steps_left. cbn [fst snd downloaded pt_init]. intros Hm.
    pose proof (run_stage down up errq fs0 (m - (2 * length (q_items down) + 3)) Hc) as R.
    cbv zeta in R. replace (_ + (m - _)) with m in R by lia.
    destruct (stage_spec _ fs0) as [[[outs errs] fs'] st]. simpl in Hf. subst st.
    destruct (run_thread m _) as [pc st']. by destruct R as (_ & _ & _ & _ & -> & _).
Qed.

(** C17: every failure is logged: at every point of any run (on any input
    queue, open or closed, for any number of steps), the records [run]
    has put on [error_queue] are exactly the [FailedJobBatch]es it has
    passed to [logger.error], in the same order. *)
Theorem run_logs_every_failure (down up : Q Item) errq fs0 n :
  let st' := (run_thread n (AtTest, pt_init down up errq fs0)).2 in
  error_queue st' = errq ++ log_errors (log st').
Proof.
  cbv zeta. destruct (run_thread_failures n (AtTest, pt_init down up errq fs0))
    as (new & E & L & _). simpl in E, L. by rewrite E, L.
Qed.

(** C18: every record [run] puts on [error_queue] is one the [except
    Exception] handler built: of kind [PROCESSING_FAILED], with the
    [repr] of an [Exception] as its message; the error queue only grows. *)
Theorem run_emits_wellformed_failures (down up : Q Item) errq fs0 n :
  let st' := (run_thread n (AtTest, pt_init down up errq fs0)).2 in
  exists new, error_queue st' = errq ++ new /\ Forall failure_record_ok new.
Proof.
  cbv zeta. destruct (run_thread_failures n (AtTest, pt_init down up errq fs0))
    as (new & E & _ & F). by exists new.
Qed.
End Claims.

(** ** Witnesses *)

#[local] Existing Instance demo_script.

Lemma run_exits_after_exactly_witness :
  q_closed demo_down = true /\ (stage_spec (q_items demo_down) demo_fs).2 = Finished /\
  ((run_thread 9 (AtTest, pt_init demo_down demo_up [] demo_fs)).1 = Exited <->
   steps_left (AtTest, pt_init demo_down demo_up [] demo_fs) <= 9).
Proof.
  split_and!; [reflexivity | vm_compute; reflexivity |].
  apply run_exits_after_exactly; [reflexivity | vm_compute; reflexivity].
Defined.

Lemma run_logs_every_failure_witness :
  let st' := (run_thread 9 (AtTest, pt_init demo_down demo_up [] demo_fs)).2 in
  error_queue st' = [] ++ log_errors (log st').
Proof. apply run_logs_every_failure. Defined.

Lemma run_emits_wellformed_failures_witness :
  let st' := (run_thread 9 (AtTest, pt_init demo_down demo_up [] demo_fs)).2 in
  exists new, error_queue st' = [] ++ new /\ Forall failure_record_ok new.
Proof. apply run_emits_wellformed_failures. Defined.
