(* ===== verification/Pipeline.v ===== *)
(** * The processing thread inside the running pipeline

    The objects the processing thread shares with the other threads are
    its queues: [downloaded] (written by the download thread), [to_upload]
    (read by the upload thread) and [error_queue] (written by every stage,
    read by the reporting loop).  [Sys] is the store of the whole
    pipeline as the processing thread sees it: the thread's program
    counter and attributes (so the queues exist once, and every thread
    acts on the same objects) and, as ghost state, the items the download
    thread put, the items the upload thread took and the records the
    reporting loop took.  [sys_step] interleaves one step of any thread:
    the download thread puts an item (only before it closed the queue,
    its contract) or closes; another stage reports its own failure; the
    reporting loop or the upload thread takes the head of its queue; or
    the processing thread takes a [pt_step].  [sys_inv] is the invariant
    of every reachable state, proved by induction on reachability. *)

From stdpp Require Import base list gmap strings.
From S2P Require Import Prelude Filesystem WrappedQueue Util ProcessingThread ThreadSteps.

Record Sys (Q : Type -> Type) := mkSys {
  sys_pc : PC;
  sys_thread : ProcessingThread Q;
  produced : list Item;                (** ghost: the download thread's puts *)
  delivered : list Item;               (** ghost: what the upload thread took *)
  reported : list FailedJobBatch;      (** ghost: what the reporting loop took *)
}.
Arguments mkSys {Q} sys_pc sys_thread produced delivered reported.
Arguments sys_pc {Q} s.
Arguments sys_thread {Q} s.
Arguments produced {Q} s.
Arguments delivered {Q} s.
Arguments reported {Q} s.

(** Output position [y] answers input position [x]: the same item, or a
    skip marker in its place. *)
Definition answers (x y : Item) : Prop := y = None \/ y = x.

(** The batches whose position was answered by a skip marker although a
    batch came in: the batches the processing stage failed on. *)
Fixpoint failed_batches (c outs : list Item) : list JobBatch :=
  match c, outs with
  | Some b :: c', None :: outs' => b :: failed_batches c' outs'
  | _ :: c', _ :: outs' => failed_batches c' outs'
  | _, _ => []
  end.

Definition is_processing_failure (f : FailedJobBatch) : Prop :=
  error_type f = PROCESSING_FAILED.

Section System.
Context `{ClosableQueue Q} `{Script}.
Implicit Types s : Sys Q.

Definition sys_init (fs0 : FS) : Sys Q :=
  mkSys AtTest (pt_init q_new q_new [] fs0) [] [] [].

Definition upd_thread s (th : ProcessingThread Q) : Sys Q :=
  mkSys (sys_pc s) th (produced s) (delivered s) (reported s).

(** The download thread's [downloaded.put(x)] and [downloaded.close()]. *)
Definition download_put (x : Item) s : Sys Q :=
  mkSys (sys_pc s)
    (set_downloaded (q_put x (downloaded (sys_thread s))) (sys_thread s))
    (produced s ++ [x]) (delivered s) (reported s).

Definition download_close s : Sys Q :=
  upd_thread s (set_downloaded (q_close (downloaded (sys_thread s))) (sys_thread s)).

(** Another stage puts its own failure record on the shared error queue. *)
Definition other_failure (f : FailedJobBatch) s : Sys Q :=
  upd_thread s (set_error_queue (error_queue (sys_thread s) ++ [f]) (sys_thread s)).

(** The reporting loop takes the head of the error queue. *)
Definition report s : Sys Q :=
  match error_queue (sys_thread s) with
  | f :: rest => mkSys (sys_pc s) (set_error_queue rest (sys_thread s))
                   (produced s) (delivered s) (reported s ++ [f])
  | [] => s
  end.

(** The upload thread's [to_upload.get()], when it does not block. *)
Definition upload_get s : Sys Q :=
  match q_get (to_upload (sys_thread s)) with
  | QGot x q' => mkSys (sys_pc s) (set_to_upload q' (sys_thread s))
                   (produced s) (delivered s ++ [x]) (reported s)
  | _ => s
  end.

(** One step of the processing thread. *)
Definition process_step s : Sys Q :=
  match pt_step (sys_pc s, sys_thread s) with
  | Some (pc', th') => mkSys pc' th' (produced s) (delivered s) (reported s)
  | None => s
  end.

Inductive sys_step : Sys Q -> Sys Q -> Prop :=
| step_download_put s x :
    q_closed (downloaded (sys_thread s)) = false -> sys_step s (download_put x s)
| step_download_close s : sys_step s (download_close s)
| step_other_failure s f : ~ is_processing_failure f -> sys_step s (other_failure f s)
| step_report s f rest :
    error_queue (sys_thread s) = f :: rest -> sys_step s (report s)
| step_upload_get s x q' :
    q_get (to_upload (sys_thread s)) = QGot x q' -> sys_step s (upload_get s)
| step_process s pc' th' :
    pt_step (sys_pc s, sys_thread s) = Some (pc', th') -> sys_step s (process_step s).

(** [pc] is the point of a crash. *)
Definition crashed (pc : PC) : bool := match pc with Crashed _ => true | _ => false end.

Definition reachable (fs0 : FS) (s : Sys Q) : Prop := rtc sys_step (sys_init fs0) s.

(** Everything the processing thread has answered so far, in order. *)
Definition outputs s : list Item := delivered s ++ q_items (to_upload (sys_thread s)).

(** The processing stage's failure records, reported or still queued. *)
Definition processing_failures s : list FailedJobBatch :=
  filter is_processing_failure (reported s ++ error_queue (sys_thread s)).

Definition consumed_ok (c outs : list Item) (errs : list FailedJobBatch) : Prop :=
  Forall2 answers c outs /\ map failed_job_batch errs = failed_batches c outs.

(** What has been answered: every item taken, except that a crash
    happens after the item was taken and before it was answered. *)
Definition answered (pc : PC) (c outs : list Item) (errs : list FailedJobBatch) : Prop :=
  match pc with
  | Crashed _ => exists c0 x, c = c0 ++ [x] /\ consumed_ok c0 outs errs
  | _ => consumed_ok c outs errs
  end.

Definition sys_inv s : Prop :=
  let th := sys_thread s in
  exists c, produced s = c ++ q_items (downloaded th) /\
    answered (sys_pc s) c (outputs s) (processing_failures s) /\
    (sys_pc s = AtTest \/ sys_pc s = AtBody -> done th = false) /\
    (sys_pc s = AtClose \/ sys_pc s = Exited ->
       q_items (downloaded th) = [] /\ q_closed (downloaded th) = true) /\
    (q_closed (to_upload th) = true <-> sys_pc s = Exited).

(** The processing stage's failure records on the error channel are the
    ones the thread logged, in order. *)
Definition failures_logged s : Prop :=
  log_errors (log (sys_thread s)) = processing_failures s.
End System.

(** ** Demo runs of the pipeline (scenario E, interleaved) *)

(** The download thread puts b1 and b2 and closes its queue. *)
Definition demo_fed : Sys WQ :=
  download_close (download_put (Some (demo_batch "b2"))
    (download_put (Some (demo_batch "b1")) (sys_init demo_fs))).

(** The processing thread has handled both items (b2 fails). *)
Definition demo_mid : Sys WQ :=
  let step := @process_step WQ _ demo_script in
  step (step (step (step demo_fed))).

(** The processing thread has seen [ClosedException] and closed [to_upload]. *)
Definition demo_exit : Sys WQ :=
  let step := @process_step WQ _ demo_script in
  step (step (step demo_mid)).

(** ** Lemmas *)

Lemma failed_batches_app c1 o1 c2 o2 :
  length c1 = length o1 ->
  failed_batches (c1 ++ c2) (o1 ++ o2) = failed_batches c1 o1 ++ failed_batches c2 o2.
Proof.
  revert o1. induction c1 as [|x c1 IH]; intros [|y o1] Hl; simplify_eq/=; [done|].
  destruct x, y; simpl; by rewrite IH.
Qed.

Lemma consumed_ok_snoc c outs errs x o err :
  consumed_ok c outs errs -> answers x o ->
  map failed_job_batch err = failed_batches [x] [o] ->
  consumed_ok (c ++ [x]) (outs ++ [o]) (errs ++ err).
Proof.
  intros [F M] A E. split; [by apply Forall2_snoc|].
  rewrite map_app, M, E, failed_batches_app; [done|]. by eapply Forall2_length.
Qed.

Lemma item_spec_forwarded `{Script} x fs0 o err fs1 :
  item_spec x fs0 = Forwarded o err fs1 ->
  answers x o /\ Forall is_processing_failure (option_list err) /\
  map failed_job_batch (option_list err) = failed_batches [x] [o].
Proof.
  unfold answers, is_processing_failure.
  destruct x as [jb|]; simpl; [|intros [= <- <- _]; naive_solver].
  destruct (script_run _ fs0) as [[] fs2|e fs2|]; [| |done].
  - unfold rmtree. destruct (fs2 !! _) as [[]|]; intros [= <- <- _]; naive_solver.
  - destruct (catches_Exception e); intros [= <- <- _]; simpl; naive_solver.
Qed.


Section Reach.
Context `{ClosableQueue Q} `{Script}.
Implicit Types s : Sys Q.

Lemma reachable_process fs0 s :
  reachable fs0 s -> is_Some (pt_step (sys_pc s, sys_thread s)) ->
  reachable fs0 (process_step s).
Proof.
  intros R [[pc' th'] E]. eapply rtc_r; [exact R|]. by eapply step_process.
Qed.

Lemma reachable_download_put fs0 s x :
  reachable fs0 s -> q_closed (downloaded (sys_thread s)) = false ->
  reachable fs0 (download_put x s).
Proof. intros R C. eapply rtc_r; [exact R|]. by apply step_download_put. Qed.

Lemma reachable_download_close fs0 s :
  reachable fs0 s -> reachable fs0 (download_close s).
Proof. intros R. eapply rtc_r; [exact R|]. apply step_download_close. Qed.

(** [n] steps of the processing thread alone are [run_thread n]; the
    other threads' ghost state is left as it was. *)
Lemma iter_process_step n s :
  Nat.iter n process_step s =
  let c := run_thread n (sys_pc s, sys_thread s) in
  mkSys c.1 c.2 (produced s) (delivered s) (reported s).
Proof.
  revert s. induction n as [|n IH]; intros [pc th p d r]; [done|].
  rewrite Nat.iter_succ_r, IH. unfold process_step. cbn [run_thread sys_pc sys_thread].
  destruct (pt_step (pc, th)) as [[pc' th']|] eqn:P; [done|].
  by rewrite run_thread_stop.
Qed.
End Reach.

Section Steps.
Context `{ClosableQueueLaws Q} `{Script}.
Implicit Types st : ProcessingThread Q.

Implicit Types s : Sys Q.

(** Inside the loop [to_upload] is still open. *)
Lemma open_before_exit (b : bool) pc : (b = true <-> pc = Exited) -> pc <> Exited -> b = false.
Proof. destruct b; [|done]. intros U Hpc. by destruct Hpc; apply U. Qed.

(** A step of the processing thread keeps the invariant, one shape of
    [step_case] at a time: the [while] test changes nothing; the [break]
    leaves the loop on a closed drained queue; a handled item is
    answered; an escaping exception leaves its item taken and
    unanswered; the close after the loop closes [to_upload]. *)
Lemma inv_process s pc' th' :
  sys_inv s -> pt_step (sys_pc s, sys_thread s) = Some (pc', th') ->
  sys_inv (mkSys pc' th' (produced s) (delivered s) (reported s)).
Proof.
  destruct s as [pc st prod deliv rep].
  intros (c & P & A & D & C & U) Hp.
  unfold outputs, processing_failures in *. cbn [sys_pc sys_thread produced delivered reported] in *.
  destruct (pt_step_cases _ _ _ _ Hp) as [st|st E Cl|st x xs o err fs1 st' E I D1 _ U1 U2 Q1 _ Dn _
    |st x xs e fs1 st' E I D1 _ U1 U2 Q1 _ _|st];
    [assert (Uc : q_closed (to_upload st) = false) by (by eapply open_before_exit)..|];
    unfold sys_inv, outputs, processing_failures; cbn [sys_pc sys_thread produced delivered reported].
  - rewrite (D (or_introl eq_refl)).
    assert (Hb : (if (if q_empty (downloaded st) then negb false else true) then AtBody else AtClose)
                 = AtBody) by (by destruct (q_empty _)).
    rewrite Hb. exists c. simpl. rewrite Uc.
    split_and!; [done | done | intros _; apply D; by left | by intros [?|?] | split; discriminate].
  - exists c. simpl. rewrite Uc.
    split_and!; [done | done | by intros [?|?] | done | split; discriminate].
  - destruct (item_spec_forwarded _ _ _ _ _ I) as (Ans & Pf & Fb).
    exists (c ++ [x]). rewrite D1, U1, U2, Q1, Dn, Uc, P, E, app_prefix_cons.
    split_and!; [done | | intros _; apply D; by right | by intros [?|?] | split; discriminate].
    rewrite !app_assoc, filter_app, (filter_Forall_id _ _ Pf).
    by apply consumed_ok_snoc.
  - exists (c ++ [x]). rewrite D1, U1, U2, Q1, Uc, P, E, app_prefix_cons.
    split_and!; [done | by exists c, x | by intros [?|?] | by intros [?|?] | split; discriminate].
  - exists c. simpl. rewrite q_close_items, q_close_closed.
    split_and!; [done | done | by intros [?|?] | intros _; apply C; by left | by split].
Qed.

(** Every step of the pipeline keeps the invariant. *)
Lemma inv_step s s' : sys_inv s -> sys_step s s' -> sys_inv s'.
Proof.
  intros Hi Hs. destruct Hs as [s x Hx|s|s f Hf|s f rest Hq|s x q' Hg|s pc' th' Hp];
    [| | | | | unfold process_step; rewrite Hp; by apply inv_process].
  all: unfold download_put, download_close, other_failure, report, upload_get, upd_thread;
    rewrite ?Hq, ?Hg.
  all: destruct Hi as (c & P & A & D & C & U); exists c;
    unfold outputs, processing_failures in *; simpl in *.
  - rewrite q_put_items, q_put_closed, P, app_assoc.
    split_and!; try done. intros Hpc. destruct (C Hpc). congruence.
  - rewrite q_close_items, q_close_closed.
    split_and!; try done. intros Hpc. by destruct (C Hpc).
  - rewrite app_assoc, filter_app, filter_cons_False, filter_nil, app_nil_r by done.
    done.
  - rewrite Hq in A. by rewrite <- app_assoc.
  - destruct (q_get_got _ _ _ Hg) as [G1 G2]. rewrite G1 in A.
    rewrite <- app_assoc, G2. done.
Qed.

Lemma inv_init fs0 : sys_inv (sys_init fs0).
Proof.
  exists []. unfold outputs, processing_failures. simpl.
  rewrite !q_new_items, q_new_closed. split_and!; try done.
  by intros [? | ?].
Qed.

Lemma inv_reachable fs0 s : reachable fs0 s -> sys_inv s.
Proof. intros R. eapply rtc_invariant; [exact inv_step | exact R | apply inv_init]. Qed.

Lemma failure_record_processing f : failure_record_ok f -> is_processing_failure f.
Proof. by intros [? _]. Qed.

Lemma logged_step s s' : failures_logged s -> sys_step s s' -> failures_logged s'.
Proof.
  unfold failures_logged, processing_failures. intros L Hs.
  destruct Hs as [s x Hx|s|s f Hf|s f rest Hq|s x q' Hg|s pc' th' Hp].
  - done.
  - done.
  - simpl. by rewrite app_assoc, filter_app, filter_cons_False, filter_nil, app_nil_r.
  - unfold report. rewrite Hq in L |- *. simpl. by rewrite <- app_assoc.
  - unfold upload_get. by rewrite Hg.
  - unfold process_step. rewrite Hp. simpl.
    destruct (pt_step_failures _ _ _ _ Hp) as (new & E & Lg & F).
    rewrite E, Lg, L, app_assoc, !filter_app, (filter_Forall_id _ new); [done|].
    eapply Forall_impl; [exact F|]. apply failure_record_processing.
Qed.

Lemma logged_reachable fs0 s : reachable fs0 s -> failures_logged s.
Proof. intros R. by eapply rtc_invariant; [exact logged_step | exact R |]. Qed.
End Steps.

(** ** The pipeline's guarantees *)

Section Claims.
Context `{ClosableQueueLaws Q} `{Script}.
Implicit Types s : Sys Q.

(** C11: in every reachable state of the pipeline (the thread has not
    crashed), what the processing thread has taken off [downloaded] is a
    prefix of what the download thread put, and the items put on
    [to_upload] (those the upload thread took, then those still queued)
    answer it position by position: one output per input, in order, each
    the same item or a skip marker; a skip marker is answered by a skip
    marker. *)
Theorem reachable_outputs_answer_inputs fs0 s :
  reachable fs0 s -> crashed (sys_pc s) = false ->
  exists c, produced s = c ++ q_items (downloaded (sys_thread s)) /\
    Forall2 answers c (outputs s).
Proof.
  intros R Hc. destruct (inv_reachable _ _ R) as (c & P & A & _).
  exists c. split; [done|]. destruct (sys_pc s); try done; by destruct A.
Qed.

(** C12: whenever the [while] test of line 41 runs, [done] is false and
    the test is true: [not (downloaded.empty() and done)] never ends the
    loop, which is left only by the [break] after [ClosedException]. *)
Theorem loop_test_never_exits fs0 s :
  reachable fs0 s -> sys_pc s = AtTest ->
  done (sys_thread s) = false /\ exists st', loop_test (sys_thread s) = Normal true st'.
Proof.
  intros R Hpc. destruct (inv_reachable _ _ R) as (c & _ & _ & D & _).
  rewrite Hpc in D. specialize (D (or_introl eq_refl)).
  split; [done|]. rewrite loop_test_eq, D. destruct (q_empty _); by eexists.
Qed.

(** C13: no batch failure is dropped or invented.  In every reachable
    state (the thread has not crashed), the [PROCESSING_FAILED] records
    on the shared error queue (with those the reporting loop took, and
    whatever other stages report) name, in order, exactly the batches
    whose output position is a skip marker. *)
Theorem reachable_failures_match_skips fs0 s :
  reachable fs0 s -> crashed (sys_pc s) = false ->
  exists c, produced s = c ++ q_items (downloaded (sys_thread s)) /\
    map failed_job_batch (processing_failures s) = failed_batches c (outputs s).
Proof.
  intros R Hc. destruct (inv_reachable _ _ R) as (c & P & A & _).
  exists c. split; [done|]. destruct (sys_pc s); try done; by destruct A.
Qed.

(** C14: when [run] has returned, [to_upload] is closed, [downloaded] is
    closed and drained, every item the download thread put has been
    answered (the outputs are exactly as many and correspond position by
    position), and the failure records match the skip markers. *)
Theorem exited_answers_everything fs0 s :
  reachable fs0 s -> sys_pc s = Exited ->
  q_closed (to_upload (sys_thread s)) = true /\
  q_items (downloaded (sys_thread s)) = [] /\
  q_closed (downloaded (sys_thread s)) = true /\
  Forall2 answers (produced s) (outputs s) /\
  map failed_job_batch (processing_failures s) = failed_batches (produced s) (outputs s).
Proof.
  intros R Hpc. destruct (inv_reachable _ _ R) as (c & P & A & _ & C & U).
  rewrite Hpc in A, C, U. destruct (C (or_intror eq_refl)) as [E Cl].
  rewrite E, app_nil_r in P. subst. destruct A. naive_solver.
Qed.

(** C15: [to_upload] is closed only by a thread that has returned: in
    particular a thread that crashed (C6, C7) never closes it, in any
    interleaving. *)
Theorem output_closed_only_on_exit fs0 s :
  reachable fs0 s -> q_closed (to_upload (sys_thread s)) = true -> sys_pc s = Exited.
Proof. intros R. destruct (inv_reachable _ _ R) as (_ & _ & _ & _ & _ & U). apply U. Qed.

(** C19: no failure goes unlogged, in any interleaving: in every reachable
    state, the [PROCESSING_FAILED] records on the error channel (those
    the reporting loop took, then those still queued, among the records
    of other stages) are exactly, and in the same order, the records the
    processing thread passed to [logger.error]. *)
Theorem reachable_failures_logged fs0 s :
  reachable fs0 s -> log_errors (log (sys_thread s)) = processing_failures s.
Proof. apply logged_reachable. Qed.

(** C20 (liveness): once the download thread has closed [downloaded], the
    processing thread needs no other thread to finish.  From any
    reachable state, [steps_left] steps of its own (at most
    [2 * n + 3] for [n] items still queued) bring it to a stop: it has
    returned (and then C14 applies) or crashed. *)
Theorem closed_input_drains `{!ScriptTerminates} fs0 s :
  reachable fs0 s -> q_closed (downloaded (sys_thread s)) = true ->
  stopped (sys_pc (Nat.iter (steps_left (sys_pc s, sys_thread s)) process_step s)) = true.
Proof.
  intros R Cl. rewrite iter_process_step. cbv zeta. cbn [sys_pc].
  apply run_thread_finishes; [done|].
  by destruct (inv_reachable _ _ R) as (c & _ & _ & D & _).
Qed.
End Claims.

(** ** Witnesses *)

#[local] Existing Instance demo_script.

Lemma demo_mid_reachable : reachable demo_fs demo_mid.
Proof.
  unfold demo_mid, demo_fed. cbv zeta.
  do 4 (apply reachable_process; [|vm_compute; by eexists]).
  apply reachable_download_close.
  apply reachable_download_put; [|reflexivity].
  apply reachable_download_put; [|reflexivity].
  apply rtc_refl.
Qed.

Lemma demo_exit_reachable : reachable demo_fs demo_exit.
Proof.
  unfold demo_exit. cbv zeta.
  do 3 (apply reachable_process; [|vm_compute; by eexists]).
  apply demo_mid_reachable.
Qed.

Lemma reachable_outputs_answer_inputs_witness :
  reachable demo_fs demo_mid /\ crashed (sys_pc demo_mid) = false /\
  exists c, produced demo_mid = c ++ q_items (downloaded (sys_thread demo_mid)) /\
    Forall2 answers c (outputs demo_mid).
Proof.
  split_and!; [apply demo_mid_reachable | reflexivity |].
  apply (reachable_outputs_answer_inputs demo_fs); [apply demo_mid_reachable | reflexivity].
Defined.

Lemma loop_test_never_exits_witness :
  reachable demo_fs demo_mid /\ sys_pc demo_mid = AtTest /\
  done (sys_thread demo_mid) = false /\
  exists st', loop_test (sys_thread demo_mid) = Normal true st'.
Proof.
  split; [apply demo_mid_reachable|]. split; [reflexivity|].
  apply (loop_test_never_exits demo_fs); [apply demo_mid_reachable | reflexivity].
Defined.

Lemma reachable_failures_match_skips_witness :
  reachable demo_fs demo_mid /\ crashed (sys_pc demo_mid) = false /\
  exists c, produced demo_mid = c ++ q_items (downloaded (sys_thread demo_mid)) /\
    map failed_job_batch (processing_failures demo_mid) = failed_batches c (outputs demo_mid).
Proof.
  split_and!; [apply demo_mid_reachable | reflexivity |].
  apply (reachable_failures_match_skips demo_fs); [apply demo_mid_reachable | reflexivity].
Defined.

Lemma exited_answers_everything_witness :
  reachable demo_fs demo_exit /\ sys_pc demo_exit = Exited /\
  q_closed (to_upload (sys_thread demo_exit)) = true /\
  q_items (downloaded (sys_thread demo_exit)) = [] /\
  q_closed (downloaded (sys_thread demo_exit)) = true /\
  Forall2 answers (produced demo_exit) (outputs demo_exit) /\
  map failed_job_batch (processing_failures demo_exit) =
    failed_batches (produced demo_exit) (outputs demo_exit).
Proof.
  split; [apply demo_exit_reachable|]. split; [reflexivity|].
  apply (exited_answers_everything demo_fs); [apply demo_exit_reachable | reflexivity].
Defined.

Lemma output_closed_only_on_exit_witness :
  reachable demo_fs demo_exit /\ q_closed (to_upload (sys_thread demo_exit)) = true /\
  sys_pc demo_exit = Exited.
Proof.
  split_and!; [apply demo_exit_reachable | reflexivity |].
  apply (output_closed_only_on_exit demo_fs); [apply demo_exit_reachable | reflexivity].
Defined.

Lemma reachable_failures_logged_witness :
  reachable demo_fs demo_mid /\
  log_errors (log (sys_thread demo_mid)) = processing_failures demo_mid.
Proof.
  split; [apply demo_mid_reachable|].
  apply (reachable_failures_logged demo_fs). apply demo_mid_reachable.
Defined.

#[local] Existing Instance demo_script_terminates.

Lemma closed_input_drains_witness :
  reachable demo_fs demo_fed /\ q_closed (downloaded (sys_thread demo_fed)) = true /\
  stopped (sys_pc (Nat.iter (steps_left (sys_pc demo_fed, sys_thread demo_fed))
    process_step demo_fed)) = true.
Proof.
  assert (R : reachable demo_fs demo_fed).
  { apply reachable_download_close.
    apply reachable_download_put; [|reflexivity].
    apply reachable_download_put; [|reflexivity].
    apply rtc_refl. }
  split_and!; [exact R | reflexivity |].
  apply (closed_input_drains demo_fs); [exact R | reflexivity].
Defined.
