(* ===== verification/StageMachine.v ===== *)
(** * The stage as the spec's state machine, and the pipeline refining it

    Section 4.2 of the spec describes the processing stage as a machine
    with two modes, RUNNING and DONE: while RUNNING it takes the next
    item of the input queue and puts exactly one answer on the output
    queue (the batch, or a skip marker and a failure record); once the
    input queue is closed and drained it closes the output queue and is
    DONE.  [Stage] is that machine's state, [stage_step] its steps (with
    the upstream stage's [put] and [close]), and [abs_sys] reads a
    pipeline state as a [Stage]: the mode is DONE exactly when [run] has
    returned, the output is everything [run] put on [to_upload] (taken
    by the upload thread or still queued), the failures are the
    processing failures on the error channel.

    The refinement theorem: every reachable pipeline state in which the
    processing thread has not crashed is, read through [abs_sys], a
    reachable state of the machine; every step of the pipeline is a
    step of the machine or leaves its view unchanged (the [while] test,
    the [break], the reporting loop and the upload thread are invisible
    to it).  A crash (C6, C7) has no counterpart: the machine never
    stops in RUNNING. *)

From stdpp Require Import base list gmap strings.
From S2P Require Import Prelude Filesystem WrappedQueue Util ProcessingThread ThreadSteps Pipeline.

Inductive Mode := RUNNING | DONE.

Record Stage := mkStage {
  mode : Mode;
  input : list Item;
  input_closed : bool;
  output : list Item;
  output_closed : bool;
  failures : list FailedJobBatch;
  files : FS;
}.

Section Machine.
Context `{Script}.

(** The machine's steps: the upstream stage puts (only before closing)
    or closes; the stage consumes one item, answering it as [item_spec]
    says, or finishes on a closed, drained input. *)
Inductive stage_step : Stage -> Stage -> Prop :=
| stage_put m xs out oc fl f x :
    stage_step (mkStage m xs false out oc fl f) (mkStage m (xs ++ [x]) false out oc fl f)
| stage_close m xs c out oc fl f :
    stage_step (mkStage m xs c out oc fl f) (mkStage m xs true out oc fl f)
| stage_consume x xs c out fl f o err f' :
    item_spec x f = Forwarded o err f' ->
    stage_step (mkStage RUNNING (x :: xs) c out false fl f)
               (mkStage RUNNING xs c (out ++ [o]) false (fl ++ option_list err) f')
| stage_finish out fl f :
    stage_step (mkStage RUNNING [] true out false fl f) (mkStage DONE [] true out true fl f).
End Machine.

Definition stage_init (fs0 : FS) : Stage := mkStage RUNNING [] false [] false [] fs0.

(** A pipeline state as the spec's machine sees it. *)
Definition abs_sys `{ClosableQueue Q} (s : Sys Q) : Stage :=
  let th := sys_thread s in
  mkStage (if sys_pc s is Exited then DONE else RUNNING)
    (q_items (downloaded th)) (q_closed (downloaded th))
    (outputs s) (q_closed (to_upload th)) (processing_failures s) (fs th).

(** ** Lemmas *)

Section Refinement.
Context `{ClosableQueueLaws Q} `{Script}.
Implicit Types s : Sys Q.

(** A crashed thread stays crashed: no step of the pipeline revives it. *)
Lemma crashed_step s s' : sys_step s s' -> crashed (sys_pc s) = true -> crashed (sys_pc s') = true.
Proof.
  destruct 1 as [s x _|s|s f _|s f rest Hq|s x q' Hg|s pc' th' Hp]; try done.
  - unfold report. by destruct (error_queue _).
  - unfold upload_get. by destruct (q_get _).
  - by destruct (sys_pc s).
Qed.

(** The machine's view of one process step. *)
Lemma abs_process s pc' th' :
  sys_inv s -> pt_step (sys_pc s, sys_thread s) = Some (pc', th') -> crashed pc' = false ->
  let s' := mkSys pc' th' (produced s) (delivered s) (reported s) in
  abs_sys s' = abs_sys s \/ stage_step (abs_sys s) (abs_sys s').
Proof.
  destruct s as [pc st prod deliv rep]. intros (c & _ & _ & D & C & U) Hp Hc.
  unfold abs_sys, outputs, processing_failures. cbn [sys_pc sys_thread produced delivered reported] in *.
  destruct (pt_step_cases _ _ _ _ Hp) as [st|st E Cl|st x xs o err fs1 st' E I D1 D2 U1 U2 Q1 F1 _ _
    |st x xs e fs1 st' _ _ _ _ _ _ _ _ _|st]; cbn [sys_pc sys_thread] in *; [| | |done|].
  - left. by destruct (q_empty (downloaded st)), (done st).
  - by left.
  - right. assert (Uc : q_closed (to_upload st) = false) by (by eapply open_before_exit).
    destruct (item_spec_forwarded _ _ _ _ _ I) as (_ & Pf & _).
    rewrite E, D1, D2, U1, U2, Q1, F1, Uc, (app_assoc rep),
      (filter_app _ (rep ++ error_queue st)), (filter_Forall_id _ _ Pf), (app_assoc deliv).
    by apply stage_consume.
  - right. destruct (C (or_introl eq_refl)) as [E Cl].
    assert (Uc : q_closed (to_upload st) = false) by (by eapply open_before_exit).
    cbn. rewrite q_close_items, q_close_closed, E, Cl, Uc. constructor.
Qed.

(** Every step of the pipeline that does not crash the thread is a step
    of the machine or invisible to it. *)
Lemma abs_step s s' :
  sys_inv s -> sys_step s s' -> crashed (sys_pc s') = false ->
  abs_sys s' = abs_sys s \/ stage_step (abs_sys s) (abs_sys s').
Proof.
  intros Hi Hs Hc. destruct Hs as [s x Hx|s|s f Hf|s f rest Hq|s x q' Hg|s pc' th' Hp].
  - right. unfold abs_sys, outputs, processing_failures, download_put. cbn.
    rewrite q_put_items, q_put_closed, Hx. constructor.
  - right. unfold abs_sys, outputs, processing_failures, download_close, upd_thread. cbn.
    rewrite q_close_items, q_close_closed. constructor.
  - left. unfold abs_sys, outputs, processing_failures, other_failure, upd_thread. cbn.
    by rewrite app_assoc, filter_app, filter_cons_False, filter_nil, app_nil_r.
  - left. unfold abs_sys, outputs, processing_failures, report. rewrite Hq. cbn.
    by rewrite <- app_assoc.
  - left. destruct (q_get_got _ _ _ Hg) as [G1 G2].
    unfold abs_sys, outputs, processing_failures, upload_get. rewrite Hg. cbn.
    by rewrite G1, <- app_assoc, G2.
  - unfold process_step in *. rewrite Hp in Hc |- *. by apply abs_process.
Qed.

Lemma crashed_rtc s s' : rtc sys_step s s' -> crashed (sys_pc s) = true -> crashed (sys_pc s') = true.
Proof.
  intros R. apply (rtc_invariant sys_step (fun s => crashed (sys_pc s) = true)); [|exact R].
  intros x y Hx St. by eapply crashed_step.
Qed.

(** A run of the pipeline that ends with the thread not crashed is a run
    of the machine, up to the steps it does not see. *)
Lemma abs_rtc s1 s2 :
  rtc sys_step s1 s2 -> sys_inv s1 -> crashed (sys_pc s2) = false ->
  rtc stage_step (abs_sys s1) (abs_sys s2).
Proof.
  induction 1 as [s|s1 s1' s2 St R IH]; intros Hi Hc; [done|].
  assert (Hc1 : crashed (sys_pc s1') = false).
  { destruct (crashed (sys_pc s1')) eqn:E; [|done]. by rewrite (crashed_rtc _ _ R E) in Hc. }
  destruct (abs_step s1 s1' Hi St Hc1) as [E|Hs].
  - rewrite <- E. apply IH; [by eapply inv_step|done].
  - eapply rtc_l; [exact Hs|]. apply IH; [by eapply inv_step|done].
Qed.
End Refinement.

(** ** The theorem *)

Section Claims.
Context `{ClosableQueueLaws Q} `{Script}.

(** C21: the pipeline refines the spec's two-mode machine.  Every
    reachable pipeline state in which the processing thread has not
    crashed is, seen through [abs_sys], a state the machine reaches from
    its initial state: RUNNING with empty queues, and the same files. *)
Theorem pipeline_refines_stage_machine fs0 (s : Sys Q) :
  reachable fs0 s -> crashed (sys_pc s) = false ->
  rtc stage_step (stage_init fs0) (abs_sys s).
Proof.
  intros R Hc. pose proof (abs_rtc _ _ R (inv_init fs0) Hc) as A.
  replace (abs_sys (sys_init fs0)) with (stage_init fs0) in A; [done|].
  unfold abs_sys, outputs, processing_failures. cbn. by rewrite !q_new_items, !q_new_closed.
Qed.
End Claims.

(** ** Witness *)

#[local] Existing Instance demo_script.

Lemma pipeline_refines_stage_machine_witness :
  reachable demo_fs demo_exit /\ crashed (sys_pc demo_exit) = false /\
  rtc stage_step (stage_init demo_fs) (abs_sys demo_exit).
Proof.
  split_and!; [apply demo_exit_reachable | reflexivity |].
  apply (pipeline_refines_stage_machine demo_fs); [apply demo_exit_reachable | reflexivity].
Defined.
