(* ===== verification/Interleaving.v ===== *)
(** * The pipeline's result does not depend on the interleaving

    The processing thread is the only thread of [Sys] that touches the
    file system, takes from [downloaded] or puts on [to_upload]; the
    download thread, the other stages, the reporting loop and the upload
    thread only append to or drain the queues it shares with them.  So
    whatever the interleaving, the answers written so far (taken by the
    upload thread or still queued), the processing failures (reported or
    still queued) and the files are those of the sequential reference
    [stage_spec] run on the items the thread has taken, and a crash of
    the thread is the [Died] status of [stage_spec] on the same items.
    [spec_inv] states this of a state; it holds in every reachable
    state. *)

From stdpp Require Import base list gmap strings.
From S2P Require Import Prelude Filesystem WrappedQueue Util ProcessingThread ThreadSteps Pipeline StageMachine.

(** How the thread's program point reads as the end of [stage_spec]. *)
Definition pc_status (pc : PC) : Status :=
  match pc with Crashed e => Died e | _ => Finished end.

Section Invariant.
Context `{ClosableQueue Q} `{Script}.
Implicit Types s : Sys Q.

(** The state is [stage_spec] on the items taken so far. *)
Definition spec_inv (fs0 : FS) s : Prop :=
  exists c, produced s = c ++ q_items (downloaded (sys_thread s)) /\
    stage_spec c fs0 =
      (outputs s, processing_failures s, fs (sys_thread s), pc_status (sys_pc s)).

End Invariant.

(** ** Lemmas *)

Section Snoc.
Context `{Script}.

(** [stage_spec] on one more item: a run that finished on [c] goes on
    with [item_spec] of the next item. *)
Lemma stage_spec_snoc c x fs0 os es fs1 :
  stage_spec c fs0 = (os, es, fs1, Finished) ->
  stage_spec (c ++ [x]) fs0 =
    match item_spec x fs1 with
    | Forwarded o err fs2 => (os ++ [o], es ++ option_list err, fs2, Finished)
    | Escaped e fs2 => (os, es, fs2, Died e)
    | Hangs => (os, es, fs1, Hung)
    end.
Proof.
  revert fs0 os es. induction c as [|y c IH]; intros fs0 os es Hc; cbn [stage_spec app] in *.
  - injection Hc as <- <- ->. destruct (item_spec x fs1); cbn; by rewrite ?app_nil_r.
  - destruct (item_spec y fs0) as [o err f| |]; [|discriminate..].
    destruct (stage_spec c f) as [[[os' es'] f2] st] eqn:E.
    injection Hc as <- <- -> ->. rewrite (IH _ _ _ E).
    destruct (item_spec x fs1); by rewrite ?app_assoc.
Qed.
End Snoc.

Section Steps.
Context `{ClosableQueueLaws Q} `{Script}.
Implicit Types s : Sys Q.

(** The processing thread's step keeps [spec_inv]: a handled item
    extends [stage_spec] by [item_spec], an escaping one ends it in
    [Died]; the other shapes change nothing [stage_spec] sees. *)
Lemma spec_process fs0 s pc' th' :
  sys_inv s -> spec_inv fs0 s -> pt_step (sys_pc s, sys_thread s) = Some (pc', th') ->
  spec_inv fs0 (mkSys pc' th' (produced s) (delivered s) (reported s)).
Proof.
  destruct s as [pc st prod deliv rep]. intros _ (c & P & Hc) Hp.
  unfold spec_inv, outputs, processing_failures in *.
  cbn [sys_pc sys_thread produced delivered reported] in *.
  destruct (pt_step_cases _ _ _ _ Hp) as [st|st E Cl|st x xs o err fs1 st' E I D1 _ U1 _ Q1 F1 _ _
    |st x xs e fs1 st' E I D1 _ U1 _ Q1 F1 _|st]; cbn [sys_pc sys_thread] in *.
  - exists c. rewrite Hc. by repeat case_match.
  - by exists c.
  - destruct (item_spec_forwarded _ _ _ _ _ I) as (_ & Pf & _).
    exists (c ++ [x]). rewrite D1, P, E, app_prefix_cons, (stage_spec_snoc _ _ _ _ _ _ Hc), I.
    by rewrite U1, Q1, F1, !app_assoc, (filter_app _ (rep ++ error_queue st)), (filter_Forall_id _ _ Pf).
  - exists (c ++ [x]). rewrite D1, P, E, app_prefix_cons, (stage_spec_snoc _ _ _ _ _ _ Hc), I.
    by rewrite U1, Q1, F1.
  - exists c. cbn. by rewrite q_close_items.
Qed.

(** Every step of the pipeline keeps [spec_inv]. *)
Lemma spec_step fs0 s s' : sys_inv s -> spec_inv fs0 s -> sys_step s s' -> spec_inv fs0 s'.
Proof.
  intros Hi Hs St. destruct St as [s x Hx|s|s f Hf|s f rest Hq|s x q' Hg|s pc' th' Hp];
    [| | | | | unfold process_step; rewrite Hp; by apply spec_process].
  all: unfold download_put, download_close, other_failure, report, upload_get, upd_thread;
    rewrite ?Hq, ?Hg.
  all: destruct Hs as (c & P & Hc); exists c; unfold outputs, processing_failures in *; simpl in *.
  - by rewrite q_put_items, P, app_assoc.
  - by rewrite q_close_items.
  - by rewrite app_assoc, filter_app, filter_cons_False, filter_nil, app_nil_r.
  - rewrite Hq in Hc. by rewrite <- app_assoc.
  - destruct (q_get_got _ _ _ Hg) as [G1 _]. rewrite G1 in Hc.
    by rewrite <- app_assoc.
Qed.

Lemma spec_reachable fs0 s : reachable fs0 s -> spec_inv fs0 s.
Proof.
  intros R.
  enough (sys_inv s /\ spec_inv fs0 s) by tauto.
  refine (rtc_invariant sys_step (fun s => sys_inv s /\ spec_inv fs0 s) _ _ _ R _).
  - intros x y [Hi Hs] St. split; [by eapply inv_step|by eapply spec_step].
  - split; [apply inv_init|]. exists []. unfold outputs, processing_failures. cbn.
    by rewrite !q_new_items.
Qed.

End Steps.

(** ** Theorems *)

Section Claims.
Context `{ClosableQueueLaws Q} `{Script}.
Implicit Types s : Sys Q.

(** C22: the pipeline computes [stage_spec], whatever the interleaving.
    In every reachable state, the items the download thread put are the
    items the processing thread has taken followed by those still
    queued, and [stage_spec] on the taken items gives exactly the
    answers written so far (taken by the upload thread or still on
    [to_upload]), the processing failures (reported or still on
    [error_queue]), the thread's file system, and [Died e] if and only
    if the thread crashed with [e]. *)
Theorem pipeline_computes_stage_spec fs0 s :
  reachable fs0 s ->
  exists c, produced s = c ++ q_items (downloaded (sys_thread s)) /\
    stage_spec c fs0 =
      (outputs s, processing_failures s, fs (sys_thread s), pc_status (sys_pc s)).
Proof. apply spec_reachable. Qed.

(** C23: when [run] has returned, the pipeline's result is [stage_spec]
    of everything the download thread put: every item was taken, the
    answers and the processing failures are those of the sequential
    reference, in order, and so is the file system. *)
Theorem exit_result_is_stage_spec fs0 s :
  reachable fs0 s -> sys_pc s = Exited ->
  stage_spec (produced s) fs0 =
    (outputs s, processing_failures s, fs (sys_thread s), Finished).
Proof.
  intros R Ex. destruct (spec_reachable _ _ R) as (c & P & Hc).
  destruct (inv_reachable _ _ R) as (c' & _ & _ & _ & C & _).
  destruct (C (or_intror Ex)) as [E _].
  by rewrite P, E, app_nil_r, Hc, Ex.
Qed.

End Claims.

(** ** Witnesses *)

Section Witnesses.
#[local] Existing Instance demo_script.

Lemma pipeline_computes_stage_spec_witness :
  reachable demo_fs demo_mid /\
  exists c, produced demo_mid = c ++ q_items (downloaded (sys_thread demo_mid)) /\
    stage_spec c demo_fs =
      (outputs demo_mid, processing_failures demo_mid, fs (sys_thread demo_mid),
       pc_status (sys_pc demo_mid)).
Proof.
  split; [apply demo_mid_reachable|].
  apply (pipeline_computes_stage_spec demo_fs); apply demo_mid_reachable.
Defined.

Lemma exit_result_is_stage_spec_witness :
  reachable demo_fs demo_exit /\ sys_pc demo_exit = Exited /\
  stage_spec (produced demo_exit) demo_fs =
    (outputs demo_exit, processing_failures demo_exit, fs (sys_thread demo_exit), Finished).
Proof.
  split_and!; [apply demo_exit_reachable | reflexivity |].
  apply (exit_result_is_stage_spec demo_fs); [apply demo_exit_reachable | reflexivity].
Defined.
End Witnesses.
